(** * Match scoring of the job board API

  A shallow embedding of the match-score computations of the Express
  routes: the four-factor weighted score of
  [GET /api/jobs/recommendations/personalized], the skill-ratio score of
  [GET /api/jobs], [GET /api/jobs/:id], [POST /api/applications] and
  [POST /api/ai/match-job], and the recommendation threshold.

  JavaScript strings are modelled as [string]; numbers are IEEE-754
  binary64 values, modelled as the rationals they denote together with
  the round-to-nearest-even step every arithmetic operation ends with. *)

From Stdlib Require Import ZArith QArith Qround Qpower Qreduction.
From Stdlib Require Import Lia Lqa List Bool Sorted Permutation.
From Stdlib Require Import Ascii String DecimalString SpecFloat.
Import ListNotations.

(** ** Strings *)

Module JsString.

Open Scope string_scope.

(** Case folding of one code unit: [A]-[Z] go to [a]-[z], every other
    code unit is kept.  Skill names, titles and locations outside ASCII
    are folded by JavaScript with the Unicode tables; no statement below
    relies on more than this ASCII part. *)
Definition lower_ascii (c : ascii) : ascii :=
  let n := nat_of_ascii c in
  if (65 <=? n)%nat && (n <=? 90)%nat then ascii_of_nat (n + 32) else c.

(** [s.toLowerCase()] *)
Fixpoint toLowerCase (s : string) : string :=
  match s with
  | EmptyString => EmptyString
  | String c s' => String (lower_ascii c) (toLowerCase s')
  end.

(** [s.startsWith(t)] *)
Fixpoint startsWith (s t : string) {struct t} : bool :=
  match t, s with
  | EmptyString, _ => true
  | String _ _, EmptyString => false
  | String b t', String a s' => Ascii.eqb a b && startsWith s' t'
  end.

(** [s.includes(searchString)]: [searchString] occurs at some position
    of [s]. *)
Fixpoint includes (s searchString : string) : bool :=
  startsWith s searchString ||
  match s with
  | EmptyString => false
  | String _ s' => includes s' searchString
  end.

(** What [includes] decides. *)
Definition Substring (t s : string) : Prop :=
  exists pre post, s = pre ++ t ++ post.

(** A string is truthy when it is not empty. *)
Definition truthy_string (s : string) : bool :=
  match s with EmptyString => false | String _ _ => true end.

(** [`${n}`] for a non-negative integer [n]. *)
Definition string_of_nat (n : nat) : string :=
  NilZero.string_of_uint (Nat.to_uint n).

End JsString.

(** ** Numbers *)

(** A number is the rational it denotes.  An arithmetic operation
    computes the exact result and rounds it to the nearest binary64 value,
    ties to the even significand, as IEEE-754 prescribes; [0.29 * 50] is
    thus [14.499999999999998] and not [14.5].  Infinities and NaN are left
    out: the only division of the scorers is guarded by
    [jobSkills.length > 0]. *)

Module JsNumber.

Open Scope Q_scope.

(** Nearest integer, ties to the even one. *)
Definition rne (q : Q) : Z :=
  let f := Qfloor q in
  match Qcompare (q - inject_Z f) (1 # 2) with
  | Lt => f
  | Gt => (f + 1)%Z
  | Eq => if Z.even f then f else (f + 1)%Z
  end.

(** The exponent [e] with [2^e <= x < 2^(e+1)], for [0 < x]. *)
Definition binade (x : Q) : Z :=
  let e0 := (Z.log2 (Qnum x) - Z.log2 (Zpos (Qden x)))%Z in
  if Qle_bool (2 ^ e0) x then e0 else (e0 - 1)%Z.

(** Spacing of the binary64 values of binade [e]: 53 significant bits. *)
Definition ulp (e : Z) : Q := 2 ^ (e - 52).

(** Rounding of [0 < x]: the significand [x / ulp] lies in
    [[2^52, 2^53)] and is rounded to an integer. *)
Definition round_pos (x : Q) : Q :=
  let u := ulp (binade x) in inject_Z (rne (x / u)) * u.

(** Rounding of a real result to binary64, round-to-nearest-even.  The
    exponent range is not modelled: array lengths are below [2^32], so
    every quantity of the scorers lies in the normal range. *)
Definition round64 (x : Q) : Q :=
  match Qcompare x 0 with
  | Eq => 0
  | Gt => Qred (round_pos x)
  | Lt => Qred (- round_pos (- x))
  end.

Definition fadd (x y : Q) : Q := round64 (x + y).
Definition fmul (x y : Q) : Q := round64 (x * y).
(** [x / y], for [y] other than zero. *)
Definition fdiv (x y : Q) : Q := round64 (x / y).

(** The number of an array length; lengths are below [2^32] and exact. *)
Definition of_nat (n : nat) : Q := inject_Z (Z.of_nat n).

(** [Math.round(x)]: the nearest integer, ties towards positive
    infinity. *)
Definition Math_round (x : Q) : Z := Qfloor (x + (1 # 2)).

(** A number is a binary64 value when rounding leaves it alone. *)
Definition representable (c : Q) : Prop := round64 c == c.

End JsNumber.

(** ** Records of [types/index.ts] *)

Module Types.

(** A profile skill; only its name takes part in matching. *)
Record Skill := { name : string }.

(** [Job]: [location] and [remoteType] are optional. *)
Record Job := {
  title : string;
  location : option string;
  remoteType : option string;
  skillsRequired : list string
}.

(** [JobPreference]: the handlers read the two lists through [?.] and
    the threshold through [||], so each may be absent; the threshold is
    an integer column. *)
Record JobPreference := {
  desiredRoles : option (list string);
  desiredLocations : option (list string);
  remotePreference : option string;
  minMatchScore : option Z
}.

End Types.

(** ** Array and value helpers *)

Module Js.

(** Truthiness of a value that is a boolean or [undefined]. *)
Definition truthy (v : option bool) : bool :=
  match v with Some b => b | None => false end.

(** [o?.f()] *)
Definition optChain {A B} (o : option A) (f : A -> B) : option B :=
  match o with Some a => Some (f a) | None => None end.

(** [n || d] on an integer that may be absent: absent and zero are
    falsy. *)
Definition orDefault (n : option Z) (d : Z) : Z :=
  match n with
  | Some v => if (v =? 0)%Z then d else v
  | None => d
  end.

(** [l.slice(0, end)] *)
Definition slice0 {A} (l : list A) (end_ : Z) : list A :=
  let len := Z.of_nat (List.length l) in
  let k := if (end_ <? 0)%Z then Z.max (len + end_) 0 else Z.min end_ len in
  firstn (Z.to_nat k) l.

Section Sort.
Context {A : Type}.
(** The comparator: negative when its first argument goes first. *)
Variable compareFn : A -> A -> Z.

Fixpoint insert (x : A) (l : list A) : list A :=
  match l with
  | [] => [x]
  | y :: l' =>
      if (compareFn x y <=? 0)%Z then x :: l else y :: insert x l'
  end.

(** [l.sort(compareFn)]: a stable sort, here by insertion. *)
Fixpoint sort (l : list A) : list A :=
  match l with
  | [] => []
  | x :: l' => insert x (sort l')
  end.
End Sort.

End Js.

(** ** Skill matching

  The same three statements open every scorer: the recommendations, the
  job listing, the job detail, the application and the AI match
  handlers. *)

Module Matching.
Import JsString Types.

Definition userSkills (skills : list Skill) : list string :=
  map (fun s => toLowerCase (name s)) skills.

Definition jobSkills (job : Job) : list string :=
  map (fun s => toLowerCase s) (skillsRequired job).

(** The callback of [userSkills.some]. *)
Definition skillMatch (skill userSkill : string) : bool :=
  includes userSkill skill || includes skill userSkill.

Definition matchingSkills (userSkills : list string) (job : Job)
  : list string :=
  filter (fun skill => existsb (skillMatch skill) userSkills)
         (jobSkills job).

End Matching.

(** ** The skill-ratio score *)

Module Ratio.
Import JsString JsNumber Types Matching.

(** [GET /api/jobs] *)
Module Listing.
Definition matchScore (userSkills : list string) (job : Job) : Z :=
  let T := List.length (jobSkills job) in
  let M := List.length (matchingSkills userSkills job) in
  if (0 <? T)%nat
  then Math_round (fmul (fdiv (of_nat M) (of_nat T)) 100)
  else 0%Z.
End Listing.

(** [GET /api/jobs/:id] *)
Module Detail.
Definition matchScore (userSkills : list string) (job : Job) : Z :=
  let T := List.length (jobSkills job) in
  let M := List.length (matchingSkills userSkills job) in
  if (0 <? T)%nat
  then Math_round (fmul (fdiv (of_nat M) (of_nat T)) 100)
  else 0%Z.
End Detail.

(** [POST /api/applications]: the score stays [0] without a profile. *)
Module Apply.
Definition matchScore (userProfile : option (list Skill)) (job : Job)
  : Z :=
  match userProfile with
  | Some skills =>
      let T := List.length (jobSkills job) in
      let M := List.length (matchingSkills (userSkills skills) job) in
      if (0 <? T)%nat
      then Math_round (fmul (fdiv (of_nat M) (of_nat T)) 100)
      else 0%Z
  | None => 0%Z
  end.
End Apply.

(** [POST /api/ai/match-job] *)
Module AiMatch.
Definition skillScore (userSkills : list string) (job : Job) : Z :=
  let T := List.length (jobSkills job) in
  let M := List.length (matchingSkills userSkills job) in
  if (0 <? T)%nat
  then Math_round (fmul (fdiv (of_nat M) (of_nat T)) 100)
  else 0%Z.

(** [aiAnalysis?.overallMatchScore || skillScore], for an analysis
    whose overall score is an integer or is missing. *)
Definition finalMatchScore (overallMatchScore : option Z)
  (skillScore : Z) : Z :=
  Js.orDefault overallMatchScore skillScore.

Definition isRecommended (finalMatchScore : Z) : bool :=
  (50 <=? finalMatchScore)%Z.
End AiMatch.

End Ratio.

(** ** [GET /api/jobs/recommendations/personalized] *)

Module Recommendations.
Import JsString JsNumber Types Js Matching.
Open Scope string_scope.

(** The two locals of the scoring callback. *)
Record Acc := { score : Q; reasons : list string }.

Definition init : Acc := {| score := 0; reasons := [] |}.

(** [score += x] *)
Definition add (x : Q) (a : Acc) : Acc :=
  {| score := fadd (score a) x; reasons := reasons a |}.

(** [reasons.push(r)] *)
Definition push (r : string) (a : Acc) : Acc :=
  {| score := score a; reasons := reasons a ++ [r] |}.

(** Skill match (up to 50 points) *)
Definition skillStep (userSkills : list string) (job : Job) (a : Acc)
  : Acc :=
  let T := List.length (jobSkills job) in
  let M := List.length (matchingSkills userSkills job) in
  if (0 <? T)%nat then
    let a := add (fmul (fdiv (of_nat M) (of_nat T)) 50) a in
    if (0 <? M)%nat
    then push (string_of_nat M ++ " skill matches") a
    else a
  else a.

Definition roleMatch (prefs : JobPreference) (job : Job) : option bool :=
  optChain (desiredRoles prefs)
    (existsb (fun role =>
                includes (toLowerCase (title job)) (toLowerCase role))).

(** Role match (up to 20 points) *)
Definition roleStep (prefs : JobPreference) (job : Job) (a : Acc) : Acc :=
  if truthy (roleMatch prefs job)
  then push "Matches desired role" (add 20 a)
  else a.

Definition locationMatch (prefs : JobPreference) (job : Job)
  : option bool :=
  optChain (desiredLocations prefs)
    (existsb (fun loc =>
                truthy (optChain (location job)
                          (fun l => includes (toLowerCase l)
                                             (toLowerCase loc))))).

(** Location match (up to 15 points) *)
Definition locationStep (prefs : JobPreference) (job : Job) (a : Acc)
  : Acc :=
  if truthy (locationMatch prefs job)
  then push "Preferred location" (add 15 a)
  else a.

(** [prefs.remotePreference && job.remoteType === prefs.remotePreference] *)
Definition remoteMatch (prefs : JobPreference) (job : Job) : bool :=
  match remotePreference prefs with
  | None => false
  | Some p =>
      truthy_string p &&
      match remoteType job with
      | Some t => String.eqb t p
      | None => false
      end
  end.

(** Remote preference (up to 15 points) *)
Definition remoteStep (prefs : JobPreference) (job : Job) (a : Acc)
  : Acc :=
  if remoteMatch prefs job
  then push "Matches work preference" (add 15 a)
  else a.

(** The score lies between 0 and [b]. *)
Definition within (a : Acc) (b : Q) : Prop := 0 <= score a /\ score a <= b.

(** The object the callback returns: the job with its score and
    reasons. *)
Record ScoredJob := {
  job : Job;
  matchScore : Z;
  matchReasons : list string
}.

Definition scoreState (userSkills : list string) (prefs : JobPreference)
  (job : Job) : Acc :=
  remoteStep prefs job
    (locationStep prefs job
       (roleStep prefs job
          (skillStep userSkills job init))).

Definition scoreJob (userSkills : list string) (prefs : JobPreference)
  (job : Job) : ScoredJob :=
  let a := scoreState userSkills prefs job in
  {| job := job;
     matchScore := Math_round (score a);
     matchReasons := reasons a |}.

Definition jobsWithScores (userSkills : list string)
  (prefs : JobPreference) (jobs : list Job) : list ScoredJob :=
  map (scoreJob userSkills prefs) jobs.

(** [const minMatchScore = prefs.minMatchScore || 50] *)
Definition minMatchScore (prefs : JobPreference) : Z :=
  orDefault (Types.minMatchScore prefs) 50.

(** The filter callback: [job.matchScore >= minMatchScore]. *)
Definition recommended (prefs : JobPreference) (j : ScoredJob) : bool :=
  (minMatchScore prefs <=? matchScore j)%Z.

(** [parseInt(req.query.limit) || 10] *)
Definition limit (query : option Z) : Z := orDefault query 10.

Definition filteredJobs (userSkills : list string)
  (prefs : JobPreference) (jobs : list Job) (limit : Z)
  : list ScoredJob :=
  slice0
    (sort (fun a b => (matchScore b - matchScore a)%Z)
       (filter (recommended prefs)
          (jobsWithScores userSkills prefs jobs)))
    limit.

End Recommendations.

(** ** The words of the specification *)

Module Spec.
Import JsString Types.

(** A candidate skill and a job skill match when, lowercased, either
    contains the other. *)
Definition caseInsensitiveMatch (candidate jobSkill : string) : bool :=
  includes (toLowerCase candidate) (toLowerCase jobSkill) ||
  includes (toLowerCase jobSkill) (toLowerCase candidate).

(** T: the number of job-required skills. *)
Definition T (job : Job) : nat := List.length (skillsRequired job).

(** M: the number of job-required skills matched by at least one
    candidate skill. *)
Definition M (skills : list Skill) (job : Job) : nat :=
  List.length
    (filter (fun j => existsb (fun c => caseInsensitiveMatch (name c) j)
                        skills)
            (skillsRequired job)).

(** The threshold as the specification words it: the stored value, 50
    when none is stored. *)
Definition threshold (prefs : JobPreference) : Z :=
  match Types.minMatchScore prefs with Some m => m | None => 50%Z end.

Definition recommended (prefs : JobPreference) (score : Z) : bool :=
  (threshold prefs <=? score)%Z.
End Spec.

(** ** Sample inputs *)

Module Examples.
Import Types.
Open Scope string_scope.

Definition reactOnly : list Skill := [{| name := "react" |}].

Definition reactGraphql : Job :=
  {| title := "Backend Engineer"; location := None; remoteType := None;
     skillsRequired := ["React"; "GraphQL"] |}.

Definition noPrefs (threshold : option Z) : JobPreference :=
  {| desiredRoles := Some []; desiredLocations := Some [];
     remotePreference := None; Types.minMatchScore := threshold |}.

Definition noSkillsJob : Job :=
  {| title := "Designer"; location := None; remoteType := Some "hybrid";
     skillsRequired := [] |}.

Definition remotePrefs : JobPreference :=
  {| desiredRoles := None; desiredLocations := Some ["Berlin"];
     remotePreference := Some "remote"; Types.minMatchScore := None |}.
End Examples.

(** ** IEEE-754 reference

    The same expressions on [spec_float], the specification of binary64
    arithmetic that comes with Rocq, to compare the rational model
    with. *)

Module Binary64.
Import JsNumber.
Open Scope Q_scope.

Definition ofZ (z : Z) : spec_float := binary_normalize 53 1024 z 0 false.
Definition add := SFadd 53 1024.
Definition mul := SFmul 53 1024.
Definition div := SFdiv 53 1024.
Definition toQ (f : spec_float) : Q :=
  match f with
  | S754_finite s m e =>
      (if s then - inject_Z (Zpos m) else inject_Z (Zpos m)) * 2 ^ e
  | _ => 0
  end.

(** The score expression of the recommendations handler, on [spec_float]
    and on the rational model, for [m] matches out of [t] and the three
    flags. *)
Definition weighted (m t : Z) (role loc remote : bool) : spec_float :=
  let s := add (ofZ 0) (mul (div (ofZ m) (ofZ t)) (ofZ 50)) in
  let s := if role then add s (ofZ 20) else s in
  let s := if loc then add s (ofZ 15) else s in
  if remote then add s (ofZ 15) else s.

Definition weightedQ (m t : Z) (role loc remote : bool) : Q :=
  let s := fadd 0 (fmul (fdiv (inject_Z m) (inject_Z t)) 50) in
  let s := if role then fadd s 20 else s in
  let s := if loc then fadd s 15 else s in
  if remote then fadd s 15 else s.

Definition ratio (m t : Z) : spec_float := mul (div (ofZ m) (ofZ t)) (ofZ 100).
Definition ratioQ (m t : Z) : Q := fmul (fdiv (inject_Z m) (inject_Z t)) 100.

Definition upto (n : nat) : list Z := map Z.of_nat (seq 0 (S n)).

Definition agree (n : nat) : bool :=
  forallb (fun t =>
    forallb (fun m =>
      ((t =? 0)%Z || (t <? m)%Z) ||
      (Qeq_bool (toQ (ratio m t)) (ratioQ m t) &&
       forallb (fun r => forallb (fun l => forallb (fun w =>
         Qeq_bool (toQ (weighted m t r l w)) (weightedQ m t r l w))
         [false; true]) [false; true]) [false; true]))
    (upto n)) (upto n).
End Binary64.

(** * Further handlers *)

Module Order.
(** No element is followed by one with a larger key. *)
Definition descending {A} (key : A -> Z) (l : list A) : Prop :=
  StronglySorted (fun a b => (key b <= key a)%Z) l.

(** The comparator [(a, b) => key(b) - key(a)]. *)
Definition byKeyDesc {A} (key : A -> Z) (a b : A) : Z := (key b - key a)%Z.
End Order.

(** ** The preference points *)

Module Points.
Import Types Js Recommendations.

(** The points of the three preference tests. *)
Definition bonus (prefs : JobPreference) (job : Job) : Z :=
  ((if truthy (roleMatch prefs job) then 20 else 0) +
   (if truthy (locationMatch prefs job) then 15 else 0) +
   (if remoteMatch prefs job then 15 else 0))%Z.
End Points.

Module JsMath.
Import JsNumber.
Open Scope Q_scope.

(** [Math.ceil(x)] *)
Definition Math_ceil (x : Q) : Z := Qceiling x.

(** [x - y] *)
Definition fsub (x y : Q) : Q := round64 (x - y).
End JsMath.

(** ** Pagination of [GET /api/jobs] and [GET /api/applications] *)

Module Pagination.
Import JsNumber JsMath Js.
Open Scope Q_scope.

(** [parseInt(req.query.page) || 1], on the integer [parseInt] found, if
    any. *)
Definition page (query : option Z) : Z := orDefault query 1.

(** [parseInt(req.query.limit) || 20] *)
Definition limit (query : option Z) : Z := orDefault query 20.

(** [(page - 1) * limit] *)
Definition skip (page limit : Z) : Q :=
  fmul (fsub (inject_Z page) 1) (inject_Z limit).

(** [Math.ceil(total / limit)] *)
Definition pages (total limit : Z) : Z :=
  Math_ceil (fdiv (inject_Z total) (inject_Z limit)).
End Pagination.

(** ** The rest of [POST /api/ai/match-job] *)

Module AiMatchResponse.
Import JsString Types Matching.

(** [arr.includes(s)] on an array of strings. *)
Definition arrayIncludes (arr : list string) (s : string) : bool :=
  existsb (String.eqb s) arr.

(** [jobSkills.filter((s) => !matchingSkills.includes(s))] *)
Definition missingSkills (userSkills : list string) (job : Job)
  : list string :=
  filter (fun s => negb (arrayIncludes (matchingSkills userSkills job) s))
         (jobSkills job).
End AiMatchResponse.

(** ** The rest of [GET /api/jobs] *)

Module JobListing.
Import JsString Types Js Matching.

(** A job of the answer: [matchScore] and [matchingSkills] are set only
    for a user with a profile. *)
Record ListedJob := {
  job : Job;
  matchScore : option Z;
  matchingSkills : option (list string)
}.

Definition plain (j : Job) : ListedJob :=
  {| job := j; matchScore := None; matchingSkills := None |}.

Definition withMatchScore (userSkills : list string) (j : Job) : ListedJob :=
  {| job := j;
     matchScore := Some (Ratio.Listing.matchScore userSkills j);
     matchingSkills := Some (Matching.matchingSkills userSkills j) |}.

(** [(a, b) => (b.matchScore || 0) - (a.matchScore || 0)] *)
Definition compareMatch (a b : ListedJob) : Z :=
  (orDefault (matchScore b) 0 - orDefault (matchScore a) 0)%Z.

(** The jobs of the answer, for the profile of the user if there is one
    and the [sortByMatch] flag of the query. *)
Definition jobsWithMatchScore (userProfile : option (list Skill))
  (sortByMatch : bool) (jobs : list Job) : list ListedJob :=
  match userProfile with
  | Some skills =>
      let scored := map (withMatchScore (userSkills skills)) jobs in
      if sortByMatch then sort compareMatch scored else scored
  | None => map plain jobs
  end.
End JobListing.

(** ** The reasons of [GET /api/jobs/:id] *)

Module JobDetail.
Import JsString Types Js Matching Recommendations.
Open Scope string_scope.

(** The reasons pushed for a user with a profile; [prefs] is the
    profile's [jobPreferences], if any. *)
Definition matchReasons (userSkills : list string)
  (prefs : option JobPreference) (job : Job) : list string :=
  let M := List.length (matchingSkills userSkills job) in
  let r0 := if (0 <? M)%nat
            then ["You have " ++ string_of_nat M ++ " matching skills"]
            else [] in
  match prefs with
  | None => r0
  | Some prefs =>
      let r1 := if truthy (roleMatch prefs job)
                then (r0 ++ ["Matches your desired role"])%list else r0 in
      let r2 := if truthy (locationMatch prefs job)
                then (r1 ++ ["Matches your preferred location"])%list
                else r1 in
      if remoteMatch prefs job
      then (r2 ++ ["Matches your work preference"])%list else r2
  end.
End JobDetail.

(** ** [GET /api/applications/stats/overview] *)

Module ApplicationStats.
Import JsNumber.

(** [responseRatePercent], from the two counts. *)
Definition responseRatePercent (responseRate totalApplications : nat) : Z :=
  if (0 <? totalApplications)%nat
  then Math_round
         (fmul (fdiv (of_nat responseRate) (of_nat totalApplications)) 100)
  else 0%Z.
End ApplicationStats.

(** ** [POST /api/applications] and [DELETE /api/applications/:id]

    The rows of one user: the subscription and the applications.  Each
    handler runs its queries in sequence; requests are taken one at a
    time.  The analytics row, created with the user at registration, is
    taken to exist; the activity log and the confirmation mail do not touch
    these rows. *)

Module Applications.
Import JsString Types Js Matching.
Open Scope string_scope.

Record Subscription := {
  tier : string;
  autoAppliesUsed : Z;
  autoAppliesLimit : Z
}.

Record Application := {
  id : string;
  jobId : string;
  status : string;
  isAutoApplied : bool;
  matchScore : Z;
  matchReasons : list string
}.

Record Store := {
  subscription : option Subscription;
  applications : list Application
}.

(** What a handler answers: the status code and, for a refusal, the
    message of the [APIError]. *)
Inductive Response :=
| Json (statusCode : Z)
| Refused (statusCode : Z) (message : string).

(** [prisma.application.findFirst({ where: { userId, jobId } })] *)
Definition findByJob (apps : list Application) (j : string)
  : option Application :=
  find (fun a => String.eqb (jobId a) j) apps.

(** [prisma.application.findFirst({ where: { id, userId } })] *)
Definition findById (apps : list Application) (i : string)
  : option Application :=
  find (fun a => String.eqb (id a) i) apps.

(** [autoAppliesUsed: { increment: 1 }] *)
Definition incrementUsed (s : Subscription) : Subscription :=
  {| tier := tier s;
     autoAppliesUsed := autoAppliesUsed s + 1;
     autoAppliesLimit := autoAppliesLimit s |}.

(** The reasons stored with the application. *)
Definition applyReasons (userProfile : option (list Skill)) (job : Job)
  : list string :=
  match userProfile with
  | Some skills =>
      let M := List.length (matchingSkills (userSkills skills) job) in
      if (0 <? M)%nat then [string_of_nat M ++ " matching skills"] else []
  | None => []
  end.

(** [POST /api/applications]: [jobs] is the job table, [newId] the id the
    database gives the new row. *)
Definition create (jobs : string -> option Job)
  (userProfile : option (list Skill)) (newId : string)
  (jobId_ : string) (isAutoApply : bool) (st : Store) : Store * Response :=
  match jobs jobId_ with
  | None => (st, Refused 404 "Job not found")
  | Some job =>
      match findByJob (applications st) jobId_ with
      | Some _ => (st, Refused 409 "You have already applied to this job")
      | None =>
          let row :=
            {| id := newId; jobId := jobId_; status := "PENDING";
               isAutoApplied := isAutoApply;
               matchScore := Ratio.Apply.matchScore userProfile job;
               matchReasons := applyReasons userProfile job |} in
          if isAutoApply then
            match subscription st with
            | None => (st, Refused 404 "Subscription not found")
            | Some s =>
                if String.eqb (tier s) "FREE" &&
                   (autoAppliesLimit s <=? autoAppliesUsed s)%Z
                then (st, Refused 403
                  "Auto-apply limit reached. Upgrade to Professional for unlimited auto-applies.")
                else ({| subscription := Some (incrementUsed s);
                         applications := applications st ++ [row] |},
                      Json 201)
            end
          else ({| subscription := subscription st;
                   applications := applications st ++ [row] |},
                Json 201)
      end
  end.

(** [data: { status: 'WITHDRAWN' }] on the row with the given id. *)
Definition setStatus (i : string) (s : string) (apps : list Application)
  : list Application :=
  map (fun a =>
         if String.eqb (id a) i
         then {| id := id a; jobId := jobId a; status := s;
                 isAutoApplied := isAutoApplied a;
                 matchScore := matchScore a;
                 matchReasons := matchReasons a |}
         else a) apps.

(** [DELETE /api/applications/:id]: a soft delete. *)
Definition withdraw (i : string) (st : Store) : Store * Response :=
  match findById (applications st) i with
  | None => (st, Refused 404 "Application not found")
  | Some _ =>
      ({| subscription := subscription st;
          applications := setStatus i "WITHDRAWN" (applications st) |},
       Json 200)
  end.

(** A request of the user. *)
Inductive Request :=
| Create (newId jobId : string) (isAutoApply : bool)
| Withdraw (id : string).

Definition step (jobs : string -> option Job)
  (userProfile : option (list Skill)) (st : Store) (r : Request)
  : Store * Response :=
  match r with
  | Create newId j auto => create jobs userProfile newId j auto st
  | Withdraw i => withdraw i st
  end.

(** The store after a sequence of requests. *)
Definition run (jobs : string -> option Job)
  (userProfile : option (list Skill)) (st : Store) (rs : list Request)
  : Store :=
  fold_left (fun st r => fst (step jobs userProfile st r)) rs st.

(** The number of auto-applied applications. *)
Definition autoApplied (st : Store) : Z :=
  Z.of_nat (List.length (filter isAutoApplied (applications st))).
End Applications.

(** ** [userRateLimit] of [middleware/auth.ts] *)

Module RateLimit.
Import JsNumber JsMath.

(** The value kept for a user. *)
Record Entry := { count : Z; resetTime : Z }.

(** The [Map] of the closure, by its [get]. *)
Definition Requests := string -> option Entry.

Definition empty : Requests := fun _ => None.

(** [requests.set(k, e)] *)
Definition set (requests : Requests) (k : string) (e : Entry) : Requests :=
  fun k' => if String.eqb k' k then Some e else requests k'.

(** [next()] or the 429 answer with its [retryAfter]. *)
Inductive Answer :=
| Next
| TooManyRequests (retryAfter : Z).

(** [Math.ceil((userRequests.resetTime - now) / 1000)] *)
Definition retryAfter (resetTime now : Z) : Z :=
  Math_ceil (fdiv (fsub (inject_Z resetTime) (inject_Z now)) 1000).

(** One request through the middleware: [user] is [req.user.userId] if
    the request is authenticated, [now] is [Date.now()]. *)
Definition userRateLimit (maxRequests windowMs : Z) (requests : Requests)
  (user : option string) (now : Z) : Requests * Answer :=
  match user with
  | None => (requests, Next)
  | Some userId =>
      match requests userId with
      | None =>
          (set requests userId
             {| count := 1; resetTime := now + windowMs |}, Next)
      | Some userRequests =>
          if (resetTime userRequests <? now)%Z then
            (set requests userId
               {| count := 1; resetTime := now + windowMs |}, Next)
          else if (maxRequests <=? count userRequests)%Z then
            (requests,
             TooManyRequests (retryAfter (resetTime userRequests) now))
          else
            (set requests userId
               {| count := count userRequests + 1;
                  resetTime := resetTime userRequests |}, Next)
      end
  end.

(** A request: who and when. *)
Definition Event := (option string * Z)%type.

(** The answers to the requests of user [u] in a sequence of requests. *)
Fixpoint answersFor (maxRequests windowMs : Z) (u : string)
  (requests : Requests) (events : list Event) : list Answer :=
  match events with
  | [] => []
  | (user, now) :: rest =>
      let (requests', a) :=
        userRateLimit maxRequests windowMs requests user now in
      let tail := answersFor maxRequests windowMs u requests' rest in
      match user with
      | Some v => if String.eqb v u then a :: tail else tail
      | None => tail
      end
  end.

Definition isNext (a : Answer) : bool :=
  match a with Next => true | TooManyRequests _ => false end.

(** How many of them went through. *)
Definition passed (answers : list Answer) : Z :=
  Z.of_nat (List.length (filter isNext answers)).

(** The requests of user [u]. *)
Definition eventsOf (u : string) (events : list Event) : list Event :=
  filter (fun e => match fst e with
                   | Some v => String.eqb v u
                   | None => false
                   end) events.
End RateLimit.

(** ** More sample inputs *)

Module Samples.
Import Types.
Open Scope string_scope.

Definition reactJob : Job :=
  {| title := "Frontend Engineer"; location := Some "Berlin";
     remoteType := Some "remote"; skillsRequired := ["React"] |}.

Definition jobTable (j : string) : option Job :=
  if String.eqb j "job-1" then Some reactJob
  else if String.eqb j "job-2" then Some Examples.reactGraphql
  else None.

Definition freeSubscription : Applications.Subscription :=
  {| Applications.tier := "FREE";
     Applications.autoAppliesUsed := 4;
     Applications.autoAppliesLimit := 5 |}.

Definition store : Applications.Store :=
  {| Applications.subscription := Some freeSubscription;
     Applications.applications := [] |}.

Definition requests : list Applications.Request :=
  [ Applications.Create "a1" "job-1" true;
    Applications.Create "a2" "job-2" true;
    Applications.Withdraw "a1";
    Applications.Create "a3" "job-1" false ].

Definition events : list RateLimit.Event :=
  [ (Some "ann", 1500%Z); (Some "bob", 1600%Z); (None, 1700%Z);
    (Some "ann", 1800%Z); (Some "ann", 1900%Z) ].

Definition fullWindow : RateLimit.Requests :=
  RateLimit.set RateLimit.empty "ann"
    {| RateLimit.count := 2; RateLimit.resetTime := 61000 |}.
End Samples.

Import JsString JsNumber Types Js Matching Recommendations.
Open Scope string_scope.
Open Scope Q_scope.

(** * Facts *)

(** ** Rounding *)

Lemma rne_floor (q : Q) : (Qfloor q <= rne q <= Qfloor q + 1)%Z.
Proof.
  unfold rne. destruct (Qcompare _ _); [destruct (Z.even _)|..]; lia.
Qed.

Lemma rne_Z (z : Z) : rne (inject_Z z) = z.
Proof.
  unfold rne. rewrite Qfloor_Z.
  destruct (Qcompare_spec (inject_Z z - inject_Z z) (1 # 2)); trivial; exfalso; lra.
Qed.

Lemma rne_mono (p q : Q) : p <= q -> (rne p <= rne q)%Z.
Proof.
  intros Hpq.
  pose proof (Qfloor_resp_le _ _ Hpq) as Hf.
  destruct (Z.eq_dec (Qfloor p) (Qfloor q)) as [E|NE].
  - unfold rne. rewrite E.
    destruct (Qcompare_spec (p - inject_Z (Qfloor q)) (1 # 2)) as [Hp|Hp|Hp];
    destruct (Qcompare_spec (q - inject_Z (Qfloor q)) (1 # 2)) as [Hq|Hq|Hq];
    try destruct (Z.even (Qfloor q)); try lia; exfalso; lra.
  - pose proof (rne_floor p). pose proof (rne_floor q). lia.
Qed.

Lemma two_neq0 : ~ 2 == 0.
Proof. discriminate. Qed.

Lemma pow2_pos (e : Z) : 0 < 2 ^ e.
Proof. apply Qpower_0_lt. reflexivity. Qed.

Lemma pow2_succ (e : Z) : 2 ^ (e + 1) == 2 * 2 ^ e.
Proof. rewrite Qpower_plus by apply two_neq0. simpl. ring. Qed.

Lemma pow2_lt (a b : Z) : (a < b)%Z -> 2 ^ a < 2 ^ b.
Proof. intros; apply Qpower_lt_compat_l; [assumption|reflexivity]. Qed.

Lemma pow2_le (a b : Z) : (a <= b)%Z -> 2 ^ a <= 2 ^ b.
Proof. intros; apply Qpower_le_compat_l; [assumption|discriminate]. Qed.

Lemma pow2_lt_inv (a b : Z) : 2 ^ a < 2 ^ b -> (a < b)%Z.
Proof. intros; eapply Qpower_lt_compat_l_inv; [eassumption|reflexivity]. Qed.

Lemma log2_Q (n : Z) :
  (0 < n)%Z -> 2 ^ Z.log2 n <= inject_Z n /\ inject_Z n < 2 * 2 ^ Z.log2 n.
Proof.
  intros Hn. destruct (Z.log2_spec n Hn) as [H1 H2].
  pose proof (Z.log2_nonneg n) as H0.
  assert (E1 : inject_Z (2 ^ Z.log2 n) == 2 ^ Z.log2 n)
    by (apply (Zpower_Qpower 2); lia).
  assert (E2 : inject_Z (2 ^ Z.succ (Z.log2 n)) == 2 * 2 ^ Z.log2 n).
  { rewrite <- pow2_succ. apply (Zpower_Qpower 2); lia. }
  rewrite <- E2, <- E1.
  split; [rewrite <- Zle_Qle | rewrite <- Zlt_Qlt]; assumption.
Qed.

Lemma binade_spec (x : Q) :
  0 < x -> 2 ^ binade x <= x /\ x < 2 ^ (binade x + 1).
Proof.
  intros Hx. destruct x as [n d].
  assert (Hn : (0 < n)%Z).
  { unfold Qlt in Hx; simpl in Hx; lia. }
  unfold binade; simpl Qnum; simpl Qden.
  set (ln := Z.log2 n). set (ld := Z.log2 (Z.pos d)).
  destruct (log2_Q n Hn) as [N1 N2]. fold ln in N1, N2.
  destruct (log2_Q (Z.pos d) eq_refl) as [D1 D2]. fold ld in D1, D2.
  pose proof (pow2_pos ln) as PA. pose proof (pow2_pos ld) as PB.
  assert (Ex : n # d == inject_Z n / inject_Z (Z.pos d)) by apply Qmake_Qdiv.
  assert (PD : 0 < inject_Z (Z.pos d)) by reflexivity.
  assert (E0 : 2 ^ (ln - ld) == 2 ^ ln / 2 ^ ld)
    by (apply Qpower_minus, two_neq0).
  assert (Hlo : 2 ^ (ln - ld - 1) <= n # d).
  { assert (E : 2 ^ (ln - ld) == 2 * 2 ^ (ln - ld - 1)).
    { rewrite <- pow2_succ. now replace (ln - ld - 1 + 1)%Z with (ln - ld)%Z by ring. }
    apply Qmult_le_l with (z := 2); [reflexivity|].
    rewrite <- E, E0, Ex.
    apply Qle_shift_div_r; [assumption|].
    setoid_replace (2 * (inject_Z n / inject_Z (Z.pos d)) * 2 ^ ld)
      with ((2 * 2 ^ ld * inject_Z n) / inject_Z (Z.pos d)) by (field; lra).
    apply Qle_shift_div_l; [assumption|]. nra. }
  assert (Hhi : n # d < 2 ^ (ln - ld + 1)).
  { rewrite pow2_succ, E0, Ex.
    apply Qlt_shift_div_r; [assumption|].
    setoid_replace (2 * (2 ^ ln / 2 ^ ld) * inject_Z (Z.pos d))
      with ((2 * 2 ^ ln * inject_Z (Z.pos d)) / 2 ^ ld) by (field; lra).
    apply Qlt_shift_div_l; [assumption|]. nra. }
  destruct (Qle_bool (2 ^ (ln - ld)) (n # d)) eqn:T.
  - apply Qle_bool_iff in T. split; assumption.
  - assert (T' : n # d < 2 ^ (ln - ld)).
    { apply Qnot_le_lt. intros C. apply Qle_bool_iff in C. congruence. }
    split; [assumption|].
    now replace (ln - ld - 1 + 1)%Z with (ln - ld)%Z by ring.
Qed.

Lemma binade_unique (x : Q) (e : Z) :
  2 ^ e <= x -> x < 2 ^ (e + 1) -> binade x = e.
Proof.
  intros H1 H2.
  assert (Hx : 0 < x) by (eapply Qlt_le_trans; [apply pow2_pos|eassumption]).
  destruct (binade_spec x Hx) as [B1 B2].
  assert (binade x < e + 1)%Z
    by (apply pow2_lt_inv; eapply Qle_lt_trans; eassumption).
  assert (e < binade x + 1)%Z
    by (apply pow2_lt_inv; eapply Qle_lt_trans; eassumption).
  lia.
Qed.

Lemma rne_comp (p q : Q) : p == q -> rne p = rne q.
Proof.
  intros E. apply Z.le_antisymm; apply rne_mono; rewrite E; apply Qle_refl.
Qed.

Lemma ulp_pos (e : Z) : 0 < ulp e.
Proof. apply pow2_pos. Qed.

Lemma pow2_ulp (e : Z) (k : Z) :
  (0 <= k)%Z -> 2 ^ (e - 52 + k) == inject_Z (2 ^ k) * ulp e.
Proof.
  intros Hk. unfold ulp.
  rewrite Qpower_plus by apply two_neq0.
  rewrite (Zpower_Qpower 2 k Hk). apply Qmult_comm.
Qed.

Lemma binade_ulp (e : Z) : 2 ^ e == inject_Z (2 ^ 52) * ulp e.
Proof. rewrite <- pow2_ulp by lia. now replace (e - 52 + 52)%Z with e by ring. Qed.

Lemma binade_succ_ulp (e : Z) : 2 ^ (e + 1) == inject_Z (2 ^ 53) * ulp e.
Proof.
  rewrite <- pow2_ulp by lia. now replace (e - 52 + 53)%Z with (e + 1)%Z by ring.
Qed.

(** The scaled significand of a positive number lies in [2^52, 2^53). *)
Lemma scaled_bounds (x : Q) :
  0 < x ->
  inject_Z (2 ^ 52) <= x / ulp (binade x) /\
  x / ulp (binade x) < inject_Z (2 ^ 53).
Proof.
  intros Hx. destruct (binade_spec x Hx) as [B1 B2].
  pose proof (ulp_pos (binade x)) as U.
  rewrite binade_ulp in B1. rewrite binade_succ_ulp in B2.
  split.
  - apply Qle_shift_div_l; assumption.
  - apply Qlt_shift_div_r; assumption.
Qed.

Lemma rne_scaled_bounds (x : Q) :
  0 < x -> (2 ^ 52 <= rne (x / ulp (binade x)) <= 2 ^ 53)%Z.
Proof.
  intros Hx. destruct (scaled_bounds x Hx) as [S1 S2].
  split.
  - rewrite <- (rne_Z (2 ^ 52)). now apply rne_mono.
  - rewrite <- (rne_Z (2 ^ 53)). apply rne_mono. now apply Qlt_le_weak.
Qed.

Lemma round_pos_bounds (x : Q) :
  0 < x ->
  2 ^ binade x <= round_pos x /\ round_pos x <= 2 ^ (binade x + 1).
Proof.
  intros Hx. destruct (rne_scaled_bounds x Hx) as [R1 R2].
  pose proof (ulp_pos (binade x)) as U.
  unfold round_pos; cbv zeta.
  rewrite binade_ulp, binade_succ_ulp.
  split; apply Qmult_le_compat_r; try (now apply Qlt_le_weak);
    rewrite <- Zle_Qle; assumption.
Qed.

Lemma round_pos_pos (x : Q) : 0 < x -> 0 < round_pos x.
Proof.
  intros Hx. eapply Qlt_le_trans; [apply pow2_pos|].
  apply (round_pos_bounds x Hx).
Qed.

Lemma binade_mono (x y : Q) : 0 < x -> x <= y -> (binade x <= binade y)%Z.
Proof.
  intros Hx Hxy.
  assert (Hy : 0 < y) by (eapply Qlt_le_trans; eassumption).
  destruct (binade_spec x Hx) as [X1 _]. destruct (binade_spec y Hy) as [_ Y2].
  assert (binade x < binade y + 1)%Z; [|lia].
  apply pow2_lt_inv.
  eapply Qle_lt_trans; [eassumption|]. eapply Qle_lt_trans; eassumption.
Qed.

Lemma round_pos_mono (x y : Q) :
  0 < x -> x <= y -> round_pos x <= round_pos y.
Proof.
  intros Hx Hxy.
  assert (Hy : 0 < y) by (eapply Qlt_le_trans; eassumption).
  pose proof (binade_mono x y Hx Hxy) as Hb.
  destruct (Z.eq_dec (binade x) (binade y)) as [E|NE].
  - unfold round_pos; cbv zeta. rewrite E.
    pose proof (ulp_pos (binade y)) as U.
    apply Qmult_le_compat_r; [|now apply Qlt_le_weak].
    rewrite <- Zle_Qle. apply rne_mono.
    apply Qmult_le_compat_r; [assumption|].
    apply Qlt_le_weak, Qinv_lt_0_compat, U.
  - destruct (round_pos_bounds x Hx) as [_ X2].
    destruct (round_pos_bounds y Hy) as [Y1 _].
    eapply Qle_trans; [eassumption|]. eapply Qle_trans; [|eassumption].
    apply pow2_le. lia.
Qed.

Lemma round_pos_comp (x y : Q) : 0 < x -> x == y -> round_pos x == round_pos y.
Proof.
  intros Hx E. apply Qle_antisym; apply round_pos_mono;
    rewrite <- ?E; try assumption; apply Qle_refl.
Qed.

Lemma round64_pos (x : Q) : 0 < x -> round64 x = Qred (round_pos x).
Proof.
  intros Hx. unfold round64.
  destruct (Qcompare_spec x 0) as [E|L|G]; trivial; exfalso; lra.
Qed.

Lemma round64_zero (x : Q) : x == 0 -> round64 x = 0.
Proof.
  intros Hx. unfold round64.
  destruct (Qcompare_spec x 0) as [E|L|G]; trivial; exfalso; lra.
Qed.

Lemma round64_comp (x y : Q) : x == y -> round64 x = round64 y.
Proof.
  intros E. unfold round64.
  destruct (Qcompare_spec x 0) as [X|X|X];
  destruct (Qcompare_spec y 0) as [Y|Y|Y]; trivial; try (exfalso; lra).
  - apply Qred_complete. apply Qopp_comp.
    apply round_pos_comp; [lra | now rewrite E].
  - apply Qred_complete. now apply round_pos_comp.
Qed.

Lemma round64_nonneg (x : Q) : 0 <= x -> 0 <= round64 x.
Proof.
  intros Hx. destruct (Qle_lt_or_eq _ _ Hx) as [L|E].
  - rewrite round64_pos by assumption. rewrite Qred_correct.
    apply Qlt_le_weak, round_pos_pos, L.
  - rewrite round64_zero by (symmetry; assumption). apply Qle_refl.
Qed.

Lemma round64_mono (x y : Q) : 0 <= x -> x <= y -> round64 x <= round64 y.
Proof.
  intros Hx Hxy. destruct (Qle_lt_or_eq _ _ Hx) as [L|E].
  - rewrite !round64_pos by lra. rewrite !Qred_correct.
    now apply round_pos_mono.
  - rewrite (round64_zero x) by (symmetry; assumption).
    apply round64_nonneg. lra.
Qed.


Lemma round64_le (c x : Q) :
  representable c -> 0 <= x -> x <= c -> round64 x <= c.
Proof.
  intros Hc Hx Hxc. unfold representable in Hc.
  rewrite <- Hc. now apply round64_mono.
Qed.

Lemma round_pos_idem (x : Q) : 0 < x -> round_pos (round_pos x) == round_pos x.
Proof.
  intros Hx.
  destruct (rne_scaled_bounds x Hx) as [R1 R2].
  set (e := binade x) in *. set (k := rne (x / ulp e)) in *.
  pose proof (ulp_pos e) as U.
  assert (Er : round_pos x == inject_Z k * ulp e) by reflexivity.
  destruct (Z.eq_dec k (2 ^ 53)) as [K|K].
  - assert (Er' : round_pos x == 2 ^ (e + 1))
      by (rewrite Er, K; symmetry; apply binade_succ_ulp).
    assert (B : binade (round_pos x) = (e + 1)%Z).
    { apply binade_unique; rewrite Er'; [apply Qle_refl|apply pow2_lt; lia]. }
    unfold round_pos at 1; cbv zeta. rewrite B.
    pose proof (ulp_pos (e + 1)) as U'.
    assert (S : round_pos x / ulp (e + 1) == inject_Z (2 ^ 52)).
    { rewrite Er', binade_ulp. field. lra. }
    rewrite (rne_comp _ _ S), rne_Z, <- binade_ulp. symmetry; exact Er'.
  - assert (B : binade (round_pos x) = e).
    { apply binade_unique; rewrite Er.
      - rewrite binade_ulp. apply Qmult_le_compat_r; [|lra].
        rewrite <- Zle_Qle; assumption.
      - rewrite binade_succ_ulp. apply Qmult_lt_compat_r; [assumption|].
        rewrite <- Zlt_Qlt; lia. }
    unfold round_pos at 1; cbv zeta. rewrite B.
    assert (S : round_pos x / ulp e == inject_Z k) by (rewrite Er; field; lra).
    rewrite (rne_comp _ _ S), rne_Z. symmetry; exact Er.
Qed.

Lemma round64_idem (x : Q) : 0 <= x -> round64 (round64 x) = round64 x.
Proof.
  intros Hx. destruct (Qle_lt_or_eq _ _ Hx) as [L|E].
  - rewrite (round64_pos x L).
    rewrite (round64_comp _ (round_pos x)) by apply Qred_correct.
    rewrite round64_pos by (now apply round_pos_pos).
    apply Qred_complete, round_pos_idem, L.
  - rewrite (round64_zero x) by (symmetry; assumption). reflexivity.
Qed.

Lemma fadd_0_l (x : Q) : 0 <= x -> fadd 0 (round64 x) = round64 x.
Proof.
  intros Hx. unfold fadd.
  rewrite (round64_comp _ (round64 x)) by ring. now apply round64_idem.
Qed.

Lemma Math_round_bounds (x : Q) (c : Z) :
  0 <= x -> x <= inject_Z c -> (0 <= Math_round x <= c)%Z.
Proof.
  intros H0 Hc. unfold Math_round. split.
  - change 0%Z with (Qfloor 0). apply Qfloor_resp_le. lra.
  - assert (H : (Qfloor (x + (1 # 2)) < c + 1)%Z); [|lia].
    rewrite Zlt_Qlt. eapply Qle_lt_trans; [apply Qfloor_le|].
    rewrite inject_Z_plus. change (inject_Z 1) with 1. lra.
Qed.

(** ** Strings and arrays *)

Lemma startsWith_spec (s t : string) :
  startsWith s t = true <-> exists post, s = t ++ post.
Proof.
  revert s. induction t as [|b t IH]; intros s; simpl.
  - split; [intros _; now exists s | trivial].
  - destruct s as [|a s].
    + split; [discriminate | intros [post H]; discriminate].
    + rewrite andb_true_iff, Ascii.eqb_eq, IH. split.
      * intros [-> [post ->]]. now exists post.
      * intros [post H]. injection H as -> ->. split; [reflexivity | now exists post].
Qed.

Lemma includes_spec (s t : string) :
  includes s t = true <-> Substring t s.
Proof.
  unfold Substring. induction s as [|a s IH]; simpl.
  - rewrite orb_false_r, startsWith_spec. split.
    + intros [post H]. now exists "", post.
    + intros [[|c pre] [post H]]; [now exists post | discriminate].
  - rewrite orb_true_iff, startsWith_spec, IH. split.
    + intros [[post H] | [pre [post H]]].
      * now exists "", post.
      * exists (String a pre), post. simpl. now rewrite H.
    + intros [[|c pre] [post H]].
      * left. now exists post.
      * right. simpl in H. injection H as -> ->. now exists pre, post.
Qed.

Section SortFacts.
Context {A : Type} (compareFn : A -> A -> Z).

Lemma insert_In (x y : A) (l : list A) :
  In y (insert compareFn x l) <-> y = x \/ In y l.
Proof.
  induction l as [|z l IH]; simpl.
  - intuition.
  - destruct (compareFn x z <=? 0)%Z; simpl; [intuition|].
    rewrite IH. intuition.
Qed.

Lemma sort_In (y : A) (l : list A) : In y (sort compareFn l) <-> In y l.
Proof.
  induction l as [|x l IH]; simpl; [reflexivity|].
  rewrite insert_In, IH. intuition.
Qed.
End SortFacts.

Lemma slice0_In {A} (y : A) (l : list A) (k : Z) :
  In y (slice0 l k) -> In y l.
Proof.
  unfold slice0. intros H.
  rewrite <- (firstn_skipn (Z.to_nat
     (if (k <? 0)%Z then Z.max (Z.of_nat (List.length l) + k) 0
      else Z.min k (Z.of_nat (List.length l)))) l).
  apply in_or_app. now left.
Qed.

(** ** Counting matches *)

Lemma filter_map_comm {A B} (f : B -> bool) (g : A -> B) (l : list A) :
  filter f (map g l) = map g (filter (fun x => f (g x)) l).
Proof.
  induction l as [|x l IH]; simpl; [reflexivity|].
  destruct (f (g x)); simpl; now rewrite IH.
Qed.

Lemma existsb_map {A B} (f : B -> bool) (g : A -> B) (l : list A) :
  existsb f (map g l) = existsb (fun x => f (g x)) l.
Proof.
  induction l as [|x l IH]; simpl; [reflexivity|]. now rewrite IH.
Qed.

Lemma length_jobSkills (job : Job) : List.length (jobSkills job) = Spec.T job.
Proof. apply length_map. Qed.

Lemma length_matchingSkills (skills : list Skill) (job : Job) :
  List.length (matchingSkills (userSkills skills) job) = Spec.M skills job.
Proof.
  unfold matchingSkills, jobSkills, Spec.M.
  rewrite filter_map_comm, length_map. f_equal.
  apply filter_ext. intros j. unfold userSkills.
  rewrite existsb_map. reflexivity.
Qed.

Lemma matching_le (us : list string) (job : Job) :
  (List.length (matchingSkills us job) <= List.length (jobSkills job))%nat.
Proof. apply filter_length_le. Qed.

Lemma M_le_T (skills : list Skill) (job : Job) :
  (Spec.M skills job <= Spec.T job)%nat.
Proof. apply filter_length_le. Qed.

Lemma of_nat_nonneg (n : nat) : 0 <= of_nat n.
Proof. unfold of_nat. change 0 with (inject_Z 0). rewrite <- Zle_Qle. lia. Qed.

Lemma of_nat_pos (n : nat) : (0 < n)%nat -> 0 < of_nat n.
Proof. intros. unfold of_nat. change 0 with (inject_Z 0). rewrite <- Zlt_Qlt. lia. Qed.

Lemma of_nat_le (m n : nat) : (m <= n)%nat -> of_nat m <= of_nat n.
Proof. intros. unfold of_nat. rewrite <- Zle_Qle. lia. Qed.

(** The ratio [M / T] of the scorers, as a binary64 value, lies in
    [0, 1]. *)
Lemma fdiv_ratio_bounds (m t : nat) :
  (m <= t)%nat -> (0 < t)%nat ->
  0 <= fdiv (of_nat m) (of_nat t) /\ fdiv (of_nat m) (of_nat t) <= 1.
Proof.
  intros Hm Ht.
  pose proof (of_nat_nonneg m). pose proof (of_nat_pos t Ht).
  pose proof (of_nat_le m t Hm).
  assert (Q0 : 0 <= of_nat m / of_nat t).
  { apply Qle_shift_div_l; [assumption|]. lra. }
  assert (Q1 : of_nat m / of_nat t <= 1).
  { apply Qle_shift_div_r; [assumption|]. lra. }
  unfold fdiv. split.
  - now apply round64_nonneg.
  - apply round64_le; [reflexivity| |]; assumption.
Qed.

Lemma fmul_weight_bounds (x : Q) (w : Z) :
  (0 <= w)%Z -> representable (inject_Z w) -> 0 <= x -> x <= 1 ->
  0 <= fmul x (inject_Z w) /\ fmul x (inject_Z w) <= inject_Z w.
Proof.
  intros Hw Rw H0 H1.
  assert (W : 0 <= inject_Z w) by (change 0 with (inject_Z 0); rewrite <- Zle_Qle; lia).
  unfold fmul. split.
  - apply round64_nonneg. nra.
  - apply round64_le; [assumption| |]; nra.
Qed.

Lemma fadd_bounds (x y b c d : Q) :
  representable d -> d == b + c ->
  0 <= x -> x <= b -> 0 <= y -> y <= c ->
  0 <= fadd x y /\ fadd x y <= d.
Proof.
  intros Rd Ed X0 Xb Y0 Yc. unfold fadd. split.
  - apply round64_nonneg. lra.
  - apply round64_le; [assumption| |]; lra.
Qed.

(** ** The four-factor score *)

(** [score += x] from [score = 0] stores [x] itself. *)
Lemma skill_component_round (m t : nat) :
  (0 < t)%nat ->
  fadd 0 (fmul (fdiv (of_nat m) (of_nat t)) 50)
  = fmul (fdiv (of_nat m) (of_nat t)) 50.
Proof.
  intros Ht. unfold fmul. apply fadd_0_l.
  assert (H : 0 <= fdiv (of_nat m) (of_nat t)).
  { unfold fdiv. apply round64_nonneg.
    apply Qle_shift_div_l; [apply of_nat_pos; assumption|].
    pose proof (of_nat_nonneg m). lra. }
  nra.
Qed.

(** C1. On the recommendations path the skill component is [50 * (M / T)]
    when the job requires [T > 0] skills and [0] when it requires none,
    [M] counting the required skills that match a candidate skill up to
    case, either containing the other; the reason ["<M> skill matches"] is
    appended exactly when [M > 0]. *)
Theorem C1_skill_component (skills : list Skill) (job : Job) :
  let a := skillStep (userSkills skills) job init in
  let M := Spec.M skills job in
  let T := Spec.T job in
  score a = (if (T =? 0)%nat then 0
             else fmul (fdiv (of_nat M) (of_nat T)) 50) /\
  reasons a = (if (M =? 0)%nat then []
               else [string_of_nat M ++ " skill matches"]).
Proof.
  cbv zeta. unfold skillStep.
  rewrite length_jobSkills, length_matchingSkills.
  pose proof (M_le_T skills job) as HMT.
  destruct (Spec.T job) as [|t] eqn:ET.
  - simpl. assert (Spec.M skills job = 0%nat) as -> by lia. now split.
  - change (0 <? S t)%nat with true. change (S t =? 0)%nat with false. cbv iota.
    destruct (Spec.M skills job) as [|m] eqn:EM.
    + change (0 <? 0)%nat with false. cbv iota. simpl.
      split; [apply skill_component_round; lia | reflexivity].
    + change (0 <? S m)%nat with true. change (S m =? 0)%nat with false. cbv iota.
      simpl score. simpl reasons.
      split; [apply skill_component_round; lia | reflexivity].
Qed.


Lemma within_add (a : Acc) (x b c d : Q) :
  representable d -> d == b + c ->
  within a b -> 0 <= x -> x <= c -> within (add x a) d.
Proof.
  intros Rd Ed [A0 Ab] X0 Xc. unfold within; simpl.
  now apply (fadd_bounds _ _ b c d).
Qed.

Lemma within_push (r : string) (a : Acc) (b : Q) :
  within a b -> within (push r a) b.
Proof. trivial. Qed.

Lemma within_weaken (a : Acc) (b d : Q) : b <= d -> within a b -> within a d.
Proof. intros Hbd [A0 Ab]. split; [assumption | lra]. Qed.

Lemma skillStep_within (us : list string) (job : Job) :
  within (skillStep us job init) 50.
Proof.
  unfold skillStep.
  destruct (0 <? List.length (jobSkills job))%nat eqn:HT.
  - apply Nat.ltb_lt in HT.
    destruct (fdiv_ratio_bounds _ _ (matching_le us job) HT) as [D0 D1].
    destruct (fmul_weight_bounds _ 50 ltac:(lia) ltac:(reflexivity) D0 D1)
      as [M0 M1].
    assert (W : within
      (add (fmul (fdiv (of_nat (List.length (matchingSkills us job)))
                       (of_nat (List.length (jobSkills job)))) 50) init) 50).
    { apply (within_add init _ 0 50 50); try assumption; try reflexivity.
      split; apply Qle_refl. }
    destruct (0 <? _)%nat; [apply within_push|]; exact W.
  - split; simpl; lra.
Qed.

Lemma roleStep_within (prefs : JobPreference) (job : Job) (a : Acc) :
  within a 50 -> within (roleStep prefs job a) 70.
Proof.
  intros W. unfold roleStep. destruct (truthy _).
  - apply within_push, (within_add a 20 50 20 70); try reflexivity;
      try assumption; lra.
  - apply (within_weaken a 50 70); [lra | assumption].
Qed.

Lemma locationStep_within (prefs : JobPreference) (job : Job) (a : Acc) :
  within a 70 -> within (locationStep prefs job a) 85.
Proof.
  intros W. unfold locationStep. destruct (truthy _).
  - apply within_push, (within_add a 15 70 15 85); try reflexivity;
      try assumption; lra.
  - apply (within_weaken a 70 85); [lra | assumption].
Qed.

Lemma remoteStep_within (prefs : JobPreference) (job : Job) (a : Acc) :
  within a 85 -> within (remoteStep prefs job a) 100.
Proof.
  intros W. unfold remoteStep. destruct (remoteMatch _ _).
  - apply within_push, (within_add a 15 85 15 100); try reflexivity;
      try assumption; lra.
  - apply (within_weaken a 85 100); [lra | assumption].
Qed.

(** C2. The four-factor score is an integer between 0 and 100. *)
Theorem C2_score_range (us : list string) (prefs : JobPreference)
  (job : Job) :
  (0 <= matchScore (scoreJob us prefs job) <= 100)%Z.
Proof.
  unfold scoreJob, scoreState; simpl matchScore.
  destruct (remoteStep_within prefs job _
              (locationStep_within prefs job _
                 (roleStep_within prefs job _ (skillStep_within us job))))
    as [L U].
  apply Math_round_bounds; assumption.
Qed.

Lemma ratio_range (m t : nat) :
  (m <= t)%nat ->
  (0 <= (if (0 <? t)%nat
         then Math_round (fmul (fdiv (of_nat m) (of_nat t)) 100)
         else 0) <= 100)%Z.
Proof.
  intros Hm. destruct (0 <? t)%nat eqn:HT; [|lia].
  apply Nat.ltb_lt in HT.
  destruct (fdiv_ratio_bounds _ _ Hm HT) as [D0 D1].
  destruct (fmul_weight_bounds _ 100 ltac:(lia) ltac:(reflexivity) D0 D1)
    as [M0 M1].
  apply Math_round_bounds; assumption.
Qed.

(** C9. The skill-ratio score of the listing, detail, application and AI
    match handlers is between 0 and 100: the matching skills are filtered
    out of the required ones, so [M <= T]; it is 0 when [T = 0]. *)
Theorem C9_ratio_score_range (us : list string) (skills : option (list Skill))
  (job : Job) :
  (List.length (matchingSkills us job) <= List.length (jobSkills job))%nat /\
  (0 <= Ratio.Listing.matchScore us job <= 100)%Z /\
  (0 <= Ratio.Detail.matchScore us job <= 100)%Z /\
  (0 <= Ratio.Apply.matchScore skills job <= 100)%Z /\
  (0 <= Ratio.AiMatch.skillScore us job <= 100)%Z /\
  (skillsRequired job = [] ->
   Ratio.Listing.matchScore us job = 0%Z /\
   Ratio.Detail.matchScore us job = 0%Z /\
   Ratio.Apply.matchScore skills job = 0%Z /\
   Ratio.AiMatch.skillScore us job = 0%Z).
Proof.
  pose proof (matching_le us job) as H.
  pose proof (ratio_range _ _ H) as R.
  repeat split; try assumption; try apply R.
  - destruct skills as [sk|]; simpl; [|lia].
    apply (ratio_range _ _ (matching_le (userSkills sk) job)).
  - destruct skills as [sk|]; simpl; [|lia].
    apply (ratio_range _ _ (matching_le (userSkills sk) job)).
  - unfold Ratio.Listing.matchScore, jobSkills. now rewrite H0.
  - unfold Ratio.Detail.matchScore, jobSkills. now rewrite H0.
  - destruct skills; simpl; trivial. unfold jobSkills. now rewrite H0.
  - unfold Ratio.AiMatch.skillScore, jobSkills. now rewrite H0.
Qed.

Lemma C9_witness :
  Ratio.Listing.matchScore ["react"] Examples.noSkillsJob = 0%Z /\
  Ratio.Apply.matchScore (Some Examples.reactOnly) Examples.noSkillsJob = 0%Z.
Proof.
  destruct (C9_ratio_score_range
              ["react"] (Some Examples.reactOnly) Examples.noSkillsJob)
    as (_ & _ & _ & _ & _ & H).
  destruct (H eq_refl) as (H1 & _ & H3 & _).
  split; assumption.
Defined.

Lemma matchingSkills_nil (job : Job) : matchingSkills [] job = [].
Proof.
  unfold matchingSkills. induction (jobSkills job); simpl; trivial.
Qed.

Lemma zero_ratio_component (t : nat) (w : Q) :
  fadd 0 (fmul (fdiv (of_nat 0) (of_nat t)) w) = 0.
Proof.
  assert (D : fdiv (of_nat 0) (of_nat t) = 0).
  { apply round64_zero. unfold Qdiv. change (of_nat 0) with 0. ring. }
  rewrite D.
  assert (P : fmul 0 w = 0) by (apply round64_zero; ring).
  rewrite P. reflexivity.
Qed.

(** C4. The scorer is a total function, and the degenerate inputs add
    nothing: without candidate skills or without required skills the skill
    step leaves the score at 0 and gives no reason; a job without a
    location passes the location step unchanged; a profile without a
    remote preference passes the remote step unchanged. *)
Theorem C4_degenerate_inputs_contribute_zero
  (us : list string) (prefs : JobPreference) (job : Job) (a : Acc) :
  (exists (n : Z) (rs : list string),
      scoreJob us prefs job =
      {| Recommendations.job := job; matchScore := n; matchReasons := rs |}) /\
  skillStep [] job init = init /\
  (skillsRequired job = [] -> skillStep us job a = a) /\
  (location job = None -> locationStep prefs job a = a) /\
  (remotePreference prefs = None -> remoteStep prefs job a = a).
Proof.
  split; [eexists; eexists; reflexivity|].
  repeat split.
  - unfold skillStep. rewrite matchingSkills_nil. simpl List.length.
    destruct (0 <? _)%nat; [|reflexivity].
    change (0 <? 0)%nat with false. cbv iota.
    unfold add, init; simpl. now rewrite zero_ratio_component.
  - intros H. unfold skillStep, jobSkills. now rewrite H.
  - intros H. unfold locationStep, locationMatch. rewrite H.
    destruct (desiredLocations prefs) as [locs|]; simpl; [|reflexivity].
    assert (E : existsb (fun _ : string => false) locs = false)
      by (induction locs; simpl; trivial).
    now rewrite E.
  - intros H. unfold remoteStep, remoteMatch. now rewrite H.
Qed.

Lemma C4_witness :
  skillStep [] Examples.noSkillsJob init = init /\
  skillStep ["react"] Examples.noSkillsJob init = init /\
  locationStep Examples.remotePrefs Examples.noSkillsJob init = init /\
  remoteStep (Examples.noPrefs None) Examples.noSkillsJob init = init.
Proof.
  destruct (C4_degenerate_inputs_contribute_zero
              ["react"] Examples.remotePrefs Examples.noSkillsJob init)
    as (_ & H1 & H2 & H3 & _).
  destruct (C4_degenerate_inputs_contribute_zero
              [] (Examples.noPrefs None) Examples.noSkillsJob init)
    as (_ & _ & _ & _ & H4).
  split; [exact H1|].
  split; [apply H2; reflexivity|].
  split; [apply H3; reflexivity | apply H4; reflexivity].
Defined.

Lemma skillMatch_sym (x y : string) : skillMatch x y = skillMatch y x.
Proof. apply orb_comm. Qed.

Lemma skillMatch_spec (skill userSkill : string) :
  skillMatch skill userSkill = true <->
  Substring skill userSkill \/ Substring userSkill skill.
Proof.
  unfold skillMatch. rewrite orb_true_iff, !includes_spec. reflexivity.
Qed.

Lemma matchingSkills_In (skills : list Skill) (job : Job) (s : string) :
  In s (matchingSkills (userSkills skills) job) <->
  exists j, In j (skillsRequired job) /\ s = toLowerCase j /\
    exists c, In c skills /\
      (Substring (toLowerCase j) (toLowerCase (name c)) \/
       Substring (toLowerCase (name c)) (toLowerCase j)).
Proof.
  unfold matchingSkills, jobSkills, userSkills.
  rewrite filter_In, in_map_iff, existsb_exists. split.
  - intros [[j [<- Hj]] [u [Hu Hm]]].
    apply in_map_iff in Hu. destruct Hu as [c [<- Hc]].
    apply skillMatch_spec in Hm. exists j. repeat split; trivial.
    exists c. now split.
  - intros [j [Hj [-> [c [Hc Hm]]]]]. split.
    + exists j. now split.
    + exists (toLowerCase (name c)). split.
      * apply in_map_iff. exists c. now split.
      * now apply skillMatch_spec.
Qed.

(** C5. Skill matching is containment either way after lowercasing: a
    candidate skill [c] matches a job skill [j] exactly when lowercase [c]
    contains lowercase [j] or lowercase [j] contains lowercase [c], and a
    required skill is kept as matching exactly when some candidate skill
    matches it so.  "React.js" against "React" matches, and so does "React"
    against "React.js". *)
Theorem C5_skill_matching_symmetric_containment :
  (forall c j : string,
      skillMatch (toLowerCase j) (toLowerCase c) = true <->
      Substring (toLowerCase j) (toLowerCase c) \/
      Substring (toLowerCase c) (toLowerCase j)) /\
  (forall c j : string,
      skillMatch (toLowerCase j) (toLowerCase c) =
      skillMatch (toLowerCase c) (toLowerCase j)) /\
  (forall (skills : list Skill) (job : Job) (s : string),
      In s (matchingSkills (userSkills skills) job) <->
      exists j, In j (skillsRequired job) /\ s = toLowerCase j /\
        exists c, In c skills /\
          (Substring (toLowerCase j) (toLowerCase (name c)) \/
           Substring (toLowerCase (name c)) (toLowerCase j))) /\
  (forall t l r,
      matchingSkills (userSkills [{| name := "React.js" |}])
        {| title := t; location := l; remoteType := r;
           skillsRequired := ["React"] |} = ["react"]) /\
  (forall t l r,
      matchingSkills (userSkills [{| name := "React" |}])
        {| title := t; location := l; remoteType := r;
           skillsRequired := ["React.js"] |} = ["react.js"]).
Proof.
  split; [intros; apply skillMatch_spec|].
  split; [intros; apply skillMatch_sym|].
  split; [apply matchingSkills_In|].
  split; intros; reflexivity.
Qed.

Lemma remoteMatch_spec (prefs : JobPreference) (job : Job) :
  remotePreference prefs <> Some "" ->
  (remoteMatch prefs job = true <->
   exists p, remotePreference prefs = Some p /\ remoteType job = Some p).
Proof.
  intros NE. unfold remoteMatch.
  destruct (remotePreference prefs) as [p|].
  - destruct p as [|c p]; [congruence|]. simpl truthy_string. rewrite andb_true_l.
    destruct (remoteType job) as [t|].
    + rewrite String.eqb_eq. split.
      * intros ->. eauto.
      * intros [q [H1 H2]]. congruence.
    + split; [discriminate | intros [q [_ H]]; discriminate].
  - split; [discriminate | intros [q [H _]]; discriminate].
Qed.

(** C6. The remote step adds its 15 points exactly when the profile has
    a remote preference and it is equal, as a string, to the job's
    remote classification; "remote" against "hybrid" adds nothing. *)
Theorem C6_remote_exact_equality (prefs : JobPreference) (job : Job)
  (a : Acc) :
  remotePreference prefs <> Some "" ->
  ((exists p, remotePreference prefs = Some p /\ remoteType job = Some p) ->
   remoteStep prefs job a = push "Matches work preference" (add 15 a)) /\
  (~ (exists p, remotePreference prefs = Some p /\ remoteType job = Some p) ->
   remoteStep prefs job a = a) /\
  (remotePreference prefs = Some "remote" -> remoteType job = Some "hybrid" ->
   remoteStep prefs job a = a).
Proof.
  intros NE. pose proof (remoteMatch_spec prefs job NE) as S.
  unfold remoteStep. repeat split.
  - intros H. apply S in H. now rewrite H.
  - intros H. destruct (remoteMatch prefs job); [|reflexivity].
    exfalso. apply H, S. reflexivity.
  - intros Hp Hj. unfold remoteMatch. rewrite Hp, Hj. reflexivity.
Qed.

Lemma C6_witness :
  remoteStep Examples.remotePrefs Examples.noSkillsJob init = init.
Proof.
  destruct (C6_remote_exact_equality
              Examples.remotePrefs Examples.noSkillsJob init
              ltac:(discriminate)) as (_ & _ & H).
  apply H; reflexivity.
Defined.

Lemma reasons_skillStep (us : list string) (job : Job) (a : Acc) :
  reasons (skillStep us job a) =
  (reasons a ++
   if (0 <? List.length (matchingSkills us job))%nat
   then [(string_of_nat (List.length (matchingSkills us job))
             ++ " skill matches")%string]
   else [])%list.
Proof.
  unfold skillStep. pose proof (matching_le us job) as H.
  destruct (0 <? List.length (jobSkills job))%nat eqn:HT.
  - destruct (0 <? List.length (matchingSkills us job))%nat; simpl;
      [reflexivity | now rewrite app_nil_r].
  - apply Nat.ltb_ge in HT.
    assert (E : (0 <? List.length (matchingSkills us job))%nat = false)
      by (apply Nat.ltb_ge; lia).
    rewrite E. now rewrite app_nil_r.
Qed.

(** C7. The scorer is a function of the candidate skills, the
    preferences and the job: equal inputs give the same score and the same
    reasons, and the reasons always come in the order skills, role,
    location, remote preference. *)
Theorem C7_deterministic_ordered_reasons
  (us : list string) (prefs : JobPreference) (job : Job) :
  (forall us' prefs' job',
      us' = us -> prefs' = prefs -> job' = job ->
      scoreJob us' prefs' job' = scoreJob us prefs job) /\
  matchReasons (scoreJob us prefs job) =
  map snd
    (filter fst
       [ ((0 <? List.length (matchingSkills us job))%nat,
          string_of_nat (List.length (matchingSkills us job))
            ++ " skill matches");
         (truthy (roleMatch prefs job), "Matches desired role");
         (truthy (locationMatch prefs job), "Preferred location");
         (remoteMatch prefs job, "Matches work preference") ]).
Proof.
  split.
  - intros us' prefs' job' -> -> ->. reflexivity.
  - unfold scoreJob, scoreState. simpl matchReasons.
    unfold remoteStep, locationStep, roleStep.
    destruct (remoteMatch prefs job), (truthy (locationMatch prefs job)),
      (truthy (roleMatch prefs job)); simpl reasons;
      rewrite reasons_skillStep; simpl reasons;
      destruct (0 <? List.length (matchingSkills us job))%nat; reflexivity.
Qed.

Lemma C7_witness :
  scoreJob (userSkills Examples.reactOnly) Examples.remotePrefs
    Examples.reactGraphql
  = scoreJob (userSkills Examples.reactOnly) Examples.remotePrefs
      Examples.reactGraphql /\
  matchReasons
    (scoreJob (userSkills Examples.reactOnly) Examples.remotePrefs
       Examples.reactGraphql) = ["1 skill matches"].
Proof.
  destruct (C7_deterministic_ordered_reasons
              (userSkills Examples.reactOnly) Examples.remotePrefs
              Examples.reactGraphql) as [H1 H2].
  split; [apply H1; reflexivity | rewrite H2; reflexivity].
Defined.

Lemma filteredJobs_In (us : list string) (prefs : JobPreference)
  (jobs : list Job) (limit : Z) (sj : ScoredJob) :
  In sj (filteredJobs us prefs jobs limit) ->
  In sj (jobsWithScores us prefs jobs) /\ recommended prefs sj = true.
Proof.
  unfold filteredJobs. intros H.
  apply slice0_In in H. apply sort_In in H. now apply filter_In in H.
Qed.

(** C8. The skill-ratio formula and the four-factor formula disagree on
    some input: a candidate with "react" and a job requiring "React" and
    "GraphQL" scores 50 on the listing, detail and application handlers and
    25 on the recommendations handler. *)
Theorem C8_two_formulas_disagree :
  exists (skills : list Skill) (prefs : JobPreference) (job : Job),
    let us := userSkills skills in
    let weighted := matchScore (scoreJob us prefs job) in
    weighted = 25%Z /\
    Ratio.Listing.matchScore us job = 50%Z /\
    Ratio.Detail.matchScore us job = 50%Z /\
    Ratio.Apply.matchScore (Some skills) job = 50%Z /\
    Ratio.Listing.matchScore us job <> weighted /\
    Ratio.Detail.matchScore us job <> weighted /\
    Ratio.Apply.matchScore (Some skills) job <> weighted.
Proof.
  exists Examples.reactOnly, (Examples.noPrefs None), Examples.reactGraphql.
  vm_compute. repeat split; discriminate.
Qed.

(** C10. A stored threshold of 0 is falsy, so the filter uses 50: for
    such a profile a job scoring between 1 and 49 meets the stored
    threshold and is still left out of the recommendations. *)
Theorem C10_zero_threshold_filters_at_fifty
  (us : list string) (prefs : JobPreference) (jobs : list Job) (limit : Z)
  (sj : ScoredJob) :
  Types.minMatchScore prefs = Some 0%Z ->
  minMatchScore prefs = 50%Z /\
  ((1 <= matchScore sj <= 49)%Z ->
   Spec.recommended prefs (matchScore sj) = true /\
   recommended prefs sj = false /\
   ~ In sj (filteredJobs us prefs jobs limit)).
Proof.
  intros H0.
  assert (E : minMatchScore prefs = 50%Z)
    by (unfold minMatchScore; rewrite H0; reflexivity).
  split; [exact E|]. intros R.
  assert (F : recommended prefs sj = false)
    by (unfold recommended; rewrite E; apply Z.leb_gt; lia).
  repeat split.
  - unfold Spec.recommended, Spec.threshold. rewrite H0. apply Z.leb_le. lia.
  - exact F.
  - intros HIn. apply filteredJobs_In in HIn. destruct HIn as [_ HIn]. congruence.
Qed.

Lemma C10_witness :
  minMatchScore (Examples.noPrefs (Some 0%Z)) = 50%Z /\
  ~ In (scoreJob (userSkills Examples.reactOnly)
          (Examples.noPrefs (Some 0%Z)) Examples.reactGraphql)
       (filteredJobs (userSkills Examples.reactOnly)
          (Examples.noPrefs (Some 0%Z)) [Examples.reactGraphql] 10).
Proof.
  destruct (C10_zero_threshold_filters_at_fifty
              (userSkills Examples.reactOnly) (Examples.noPrefs (Some 0%Z))
              [Examples.reactGraphql] 10
              (scoreJob (userSkills Examples.reactOnly)
                 (Examples.noPrefs (Some 0%Z)) Examples.reactGraphql)
              eq_refl) as [H1 H2].
  split; [exact H1|].
  apply H2. vm_compute. split; discriminate.
Defined.

(** C3 as stated fails: with a stored threshold of 0, a job scoring 25 is
    not recommended although 25 >= 0. *)
Lemma C3_counterexample :
  Types.minMatchScore (Examples.noPrefs (Some 0%Z)) = Some 0%Z /\
  matchScore (scoreJob (userSkills Examples.reactOnly)
                (Examples.noPrefs (Some 0%Z)) Examples.reactGraphql) = 25%Z /\
  recommended (Examples.noPrefs (Some 0%Z))
    (scoreJob (userSkills Examples.reactOnly)
       (Examples.noPrefs (Some 0%Z)) Examples.reactGraphql)
  <> Spec.recommended (Examples.noPrefs (Some 0%Z)) 25.
Proof. vm_compute. repeat split; discriminate. Qed.

(** C3, amended. For a profile whose threshold is absent or not zero, the
    recommendations filter keeps a job exactly when its score reaches the
    threshold, the stored one or 50 when absent; the AI match handler
    compares with the constant 50. *)
Theorem C3_recommended_threshold (prefs : JobPreference) (sj : ScoredJob)
  (final : Z) :
  Types.minMatchScore prefs <> Some 0%Z ->
  minMatchScore prefs = Spec.threshold prefs /\
  recommended prefs sj = Spec.recommended prefs (matchScore sj) /\
  Ratio.AiMatch.isRecommended final = (50 <=? final)%Z.
Proof.
  intros NZ.
  assert (E : minMatchScore prefs = Spec.threshold prefs).
  { unfold minMatchScore, Spec.threshold, orDefault.
    destruct (Types.minMatchScore prefs) as [m|]; [|reflexivity].
    destruct (Z.eqb_spec m 0) as [->|]; [congruence | reflexivity]. }
  repeat split; trivial.
  unfold recommended, Spec.recommended. now rewrite E.
Qed.

Lemma C3_witness :
  minMatchScore (Examples.noPrefs (Some 70%Z)) = 70%Z /\
  recommended (Examples.noPrefs (Some 70%Z))
    (scoreJob [] (Examples.noPrefs (Some 70%Z)) Examples.reactGraphql)
  = false.
Proof.
  destruct (C3_recommended_threshold (Examples.noPrefs (Some 70%Z))
              (scoreJob [] (Examples.noPrefs (Some 70%Z)) Examples.reactGraphql)
              0 ltac:(discriminate)) as (H1 & H2 & _).
  split; [exact H1 | rewrite H2; reflexivity].
Defined.

(** ** Agreement with the IEEE-754 reference *)


(** The rational model and [spec_float] give the same skill-ratio and
    weighted scores for every [m <= t <= 32] and every choice of flags. *)
Example binary64_agreement : Binary64.agree 32 = true.
Proof. vm_compute. reflexivity. Qed.
(** 29 matches out of 100: [0.29 * 50] is just below 14.5 in binary64. *)
Example binary64_29_of_100 : Qeq_bool (Binary64.toQ (Binary64.weighted 29 100 true true true)) (Binary64.weightedQ 29 100 true true true) = true.
Proof. vm_compute. reflexivity. Qed.
Example binary64_large_lengths : Qeq_bool (Binary64.toQ (Binary64.weighted 1234567 4294967295 true false true)) (Binary64.weightedQ 1234567 4294967295 true false true) = true.
Proof. vm_compute. reflexivity. Qed.

(** * Further facts *)

(** ** The order and size of the recommendations *)

Section RecommendationOrder.
Import Order.
Local Open Scope Z_scope.

Section SortOrder.
Context {A : Type} (key : A -> Z).

Lemma insert_perm (cmp : A -> A -> Z) (x : A) (l : list A) :
  Permutation (insert cmp x l) (x :: l).
Proof.
  induction l as [|y l IH]; simpl; [reflexivity|].
  destruct (cmp x y <=? 0); [reflexivity|].
  rewrite IH. apply perm_swap.
Qed.

Lemma sort_perm (cmp : A -> A -> Z) (l : list A) :
  Permutation (sort cmp l) l.
Proof.
  induction l as [|x l IH]; simpl; [reflexivity|].
  rewrite insert_perm. now constructor.
Qed.

Lemma insert_descending (x : A) (l : list A) :
  descending key l -> descending key (insert (byKeyDesc key) x l).
Proof.
  unfold descending, byKeyDesc.
  induction 1 as [|y l Hl IH Hy]; simpl.
  - repeat constructor.
  - destruct (Z.leb_spec (key y - key x) 0) as [Hxy|Hxy].
    + constructor; [now constructor|].
      constructor; [lia|].
      rewrite Forall_forall in *. intros z Hz. specialize (Hy z Hz). lia.
    + constructor; [assumption|].
      rewrite Forall_forall in *. intros z Hz.
      apply insert_In in Hz. destruct Hz as [->|Hz]; [lia | now apply Hy].
Qed.

Lemma sort_descending (l : list A) :
  descending key (sort (byKeyDesc key) l).
Proof.
  induction l as [|x l IH]; simpl; [constructor | now apply insert_descending].
Qed.

Lemma descending_app (l1 l2 : list A) :
  descending key (l1 ++ l2) ->
  descending key l1 /\
  forall x y, In x l1 -> In y l2 -> key y <= key x.
Proof.
  unfold descending. induction l1 as [|a l1 IH]; simpl; intros H.
  - split; [constructor | intros x y []].
  - inversion H as [|? ? Hs Hf]; subst.
    destruct (IH Hs) as [S1 C1]. rewrite Forall_forall in Hf. split.
    + constructor; [assumption|].
      rewrite Forall_forall. intros z Hz. apply Hf, in_or_app. now left.
    + intros x y [<-|Hx] Hy; [apply Hf, in_or_app; now right | now apply C1].
Qed.

Lemma firstn_descending (n : nat) (l : list A) :
  descending key l -> descending key (firstn n l).
Proof.
  intros H. rewrite <- (firstn_skipn n l) in H.
  now apply descending_app in H.
Qed.
End SortOrder.

Lemma slice0_length {A} (l : list A) (k : Z) :
  0 <= k -> (List.length (slice0 l k) <= Z.to_nat k)%nat /\
            (List.length (slice0 l k) <= List.length l)%nat.
Proof.
  intros Hk. unfold slice0.
  destruct (Z.ltb_spec k 0) as [?|_]; [lia|].
  rewrite length_firstn. lia.
Qed.

Lemma slice0_all {A} (l : list A) (k : Z) :
  Z.of_nat (List.length l) <= k -> slice0 l k = l.
Proof.
  intros Hk. unfold slice0.
  destruct (Z.ltb_spec k 0) as [?|_]; [lia|].
  apply firstn_all2. lia.
Qed.

(** The recommended jobs before sorting and slicing. *)
Lemma filteredJobs_unfold (us : list string) (prefs : JobPreference)
  (jobs : list Job) (limit : Z) :
  filteredJobs us prefs jobs limit =
  slice0 (sort (byKeyDesc matchScore)
            (filter (recommended prefs) (jobsWithScores us prefs jobs)))
         limit.
Proof. reflexivity. Qed.

Lemma scoreJob_range (us : list string) (prefs : JobPreference) (job : Job) :
  0 <= matchScore (scoreJob us prefs job) <= 100.
Proof.
  unfold scoreJob, scoreState; simpl matchScore.
  destruct (remoteStep_within prefs job _
              (locationStep_within prefs job _
                 (roleStep_within prefs job _ (skillStep_within us job))))
    as [L U].
  apply Math_round_bounds; assumption.
Qed.

(** X1. The recommendations come best first: no job is followed by one
    with a higher score, whatever the limit. *)
Theorem filteredJobs_descending (us : list string) (prefs : JobPreference)
  (jobs : list Job) (limit : Z) :
  descending matchScore (filteredJobs us prefs jobs limit).
Proof.
  rewrite filteredJobs_unfold. unfold slice0.
  apply firstn_descending, sort_descending.
Qed.

(** X2. The number of recommendations: with [n] jobs reaching the
    threshold, a non-negative limit returns [min limit n] of them and a
    negative limit returns all but the last [-limit], that is
    [max (n + limit) 0]. *)
Theorem filteredJobs_length (us : list string) (prefs : JobPreference)
  (jobs : list Job) (limit : Z) :
  let n := Z.of_nat (List.length (filter (recommended prefs)
                                    (jobsWithScores us prefs jobs))) in
  Z.of_nat (List.length (filteredJobs us prefs jobs limit)) =
  (if limit <? 0 then Z.max (n + limit) 0 else Z.min limit n) /\
  n <= Z.of_nat (List.length jobs).
Proof.
  cbv zeta. rewrite filteredJobs_unfold. unfold slice0.
  rewrite length_firstn.
  rewrite (Permutation_length (sort_perm _ _)).
  split.
  - destruct (Z.ltb_spec limit 0); lia.
  - pose proof (filter_length_le (recommended prefs)
                  (jobsWithScores us prefs jobs)) as H.
    unfold jobsWithScores in H at 2. rewrite length_map in H. lia.
Qed.

(** X3. Every recommendation is the scoring of one of the given jobs and
    its score lies between the threshold and 100; a threshold above 100
    leaves no recommendation. *)
Theorem filteredJobs_sound (us : list string) (prefs : JobPreference)
  (jobs : list Job) (limit : Z) :
  (forall sj, In sj (filteredJobs us prefs jobs limit) ->
     (exists j, In j jobs /\ sj = scoreJob us prefs j) /\
     minMatchScore prefs <= matchScore sj <= 100) /\
  (100 < minMatchScore prefs -> filteredJobs us prefs jobs limit = []).
Proof.
  assert (S : forall sj, In sj (filteredJobs us prefs jobs limit) ->
     (exists j, In j jobs /\ sj = scoreJob us prefs j) /\
     minMatchScore prefs <= matchScore sj <= 100).
  { intros sj H. apply filteredJobs_In in H. destruct H as [Hin Hrec].
    unfold jobsWithScores in Hin. apply in_map_iff in Hin.
    destruct Hin as [j [<- Hj]]. split; [now exists j|].
    unfold recommended in Hrec. apply Z.leb_le in Hrec.
    pose proof (scoreJob_range us prefs j). lia. }
  split; [exact S|].
  intros Hhi. destruct (filteredJobs us prefs jobs limit) as [|sj l] eqn:E;
    [reflexivity|].
  destruct (S sj (or_introl eq_refl)) as [_ ?]. lia.
Qed.

(** X4. The slice keeps the best: a job that reaches the threshold and is
    left out of the answer scores no more than any job in the answer. *)
Theorem filteredJobs_keeps_best (us : list string) (prefs : JobPreference)
  (jobs : list Job) (limit : Z) (kept dropped : ScoredJob) :
  In kept (filteredJobs us prefs jobs limit) ->
  In dropped (jobsWithScores us prefs jobs) ->
  recommended prefs dropped = true ->
  ~ In dropped (filteredJobs us prefs jobs limit) ->
  matchScore dropped <= matchScore kept.
Proof.
  rewrite filteredJobs_unfold. unfold slice0.
  set (s := sort (byKeyDesc matchScore)
              (filter (recommended prefs) (jobsWithScores us prefs jobs))).
  set (k := Z.to_nat _).
  intros Hk Hd Hr Hn.
  assert (Hs : In dropped s).
  { apply sort_In, filter_In. now split. }
  rewrite <- (firstn_skipn k s) in Hs. apply in_app_or in Hs.
  destruct Hs as [Hs|Hs]; [contradiction|].
  pose proof (sort_descending matchScore
                (filter (recommended prefs) (jobsWithScores us prefs jobs)))
    as D.
  fold s in D. rewrite <- (firstn_skipn k s) in D.
  apply descending_app in D. destruct D as [_ D]. now apply D.
Qed.

(** X5. No recommendation is lost to the slice when the limit is at
    least the number of jobs: the answer is then a rearrangement of all
    the scored jobs that reach the threshold. *)
Theorem filteredJobs_complete (us : list string) (prefs : JobPreference)
  (jobs : list Job) (limit : Z) :
  Z.of_nat (List.length jobs) <= limit ->
  Permutation (filteredJobs us prefs jobs limit)
    (filter (recommended prefs) (jobsWithScores us prefs jobs)).
Proof.
  intros H. rewrite filteredJobs_unfold, slice0_all; [apply sort_perm|].
  rewrite (Permutation_length (sort_perm _ _)).
  pose proof (filter_length_le (recommended prefs)
                (jobsWithScores us prefs jobs)) as L.
  unfold jobsWithScores in L at 2. rewrite length_map in L. lia.
Qed.

End RecommendationOrder.

(** ** Scores at the ends and along the skill list *)

Section ScoreEnds.
Import Order Points.
Local Open Scope string_scope.
Local Open Scope Q_scope.

Lemma fdiv_self (t : nat) : (0 < t)%nat -> fdiv (of_nat t) (of_nat t) = 1.
Proof.
  intros Ht. unfold fdiv. rewrite (round64_comp _ 1); [reflexivity|].
  pose proof (of_nat_pos t Ht). field. lra.
Qed.

Lemma skillStep_no_match (us : list string) (job : Job) :
  List.length (matchingSkills us job) = 0%nat -> skillStep us job init = init.
Proof.
  intros H. unfold skillStep. rewrite H.
  destruct (0 <? _)%nat; [|reflexivity].
  change (0 <? 0)%nat with false. cbv iota.
  unfold add, init; simpl. now rewrite zero_ratio_component.
Qed.

Lemma skillStep_full_match (us : list string) (job : Job) :
  (0 < List.length (jobSkills job))%nat ->
  List.length (matchingSkills us job) = List.length (jobSkills job) ->
  score (skillStep us job init) = 50.
Proof.
  intros HT HM. unfold skillStep. rewrite HM.
  apply Nat.ltb_lt in HT. rewrite HT. simpl.
  apply Nat.ltb_lt in HT. rewrite (fdiv_self _ HT). reflexivity.
Qed.

Lemma scoreJob_from_integer (us : list string) (prefs : JobPreference)
  (job : Job) (s : Q) :
  score (skillStep us job init) = s -> (s = 0 \/ s = 50) ->
  inject_Z (matchScore (scoreJob us prefs job)) == s + inject_Z (bonus prefs job).
Proof.
  intros Hs Hc. unfold scoreJob, scoreState, bonus. simpl matchScore.
  unfold remoteStep, locationStep, roleStep.
  destruct (remoteMatch prefs job), (truthy (locationMatch prefs job)),
    (truthy (roleMatch prefs job)); simpl score; rewrite Hs;
    destruct Hc as [-> | ->]; reflexivity.
Qed.

(** X6. Without any matching skill the score is exactly the preference
    points, 20 for the role, 15 for the location and 15 for the remote
    preference; with no stored threshold such a job is recommended only
    when all three preferences match. *)
Theorem no_skill_match_score (us : list string) (prefs : JobPreference)
  (job : Job) :
  List.length (matchingSkills us job) = 0%nat ->
  matchScore (scoreJob us prefs job) = bonus prefs job /\
  (Types.minMatchScore prefs = None ->
   (recommended prefs (scoreJob us prefs job) = true <->
    truthy (roleMatch prefs job) = true /\
    truthy (locationMatch prefs job) = true /\
    remoteMatch prefs job = true)).
Proof.
  intros HM.
  assert (E : matchScore (scoreJob us prefs job) = bonus prefs job).
  { pose proof (scoreJob_from_integer us prefs job 0
                  (f_equal score (skillStep_no_match us job HM))
                  (or_introl eq_refl)) as H.
    rewrite Qplus_0_l in H. exact (proj1 (inject_Z_injective _ _) H). }
  split; [exact E|]. intros Hnone.
  unfold recommended, minMatchScore. rewrite Hnone, E. simpl orDefault.
  rewrite Z.leb_le. unfold bonus.
  destruct (truthy (roleMatch prefs job)),
    (truthy (locationMatch prefs job)), (remoteMatch prefs job);
    intuition (try lia; try discriminate).
Qed.

(** X7. When every required skill is matched the score is exactly 50 plus
    the preference points, so the job is recommended for every threshold
    up to 50, the default included. *)
Theorem full_skill_match_score (us : list string) (prefs : JobPreference)
  (job : Job) :
  (0 < List.length (jobSkills job))%nat ->
  List.length (matchingSkills us job) = List.length (jobSkills job) ->
  matchScore (scoreJob us prefs job) = (50 + bonus prefs job)%Z /\
  ((minMatchScore prefs <= 50)%Z ->
   recommended prefs (scoreJob us prefs job) = true).
Proof.
  intros HT HM.
  assert (E : matchScore (scoreJob us prefs job) = (50 + bonus prefs job)%Z).
  { pose proof (scoreJob_from_integer us prefs job 50
                  (skillStep_full_match us job HT HM)
                  (or_intror eq_refl)) as H.
    change 50 with (inject_Z 50) in H. rewrite <- inject_Z_plus in H.
    exact (proj1 (inject_Z_injective _ _) H). }
  split; [exact E|]. intros Hth.
  unfold recommended. rewrite E. apply Z.leb_le.
  assert (0 <= bonus prefs job)%Z; [|lia].
  unfold bonus.
  destruct (truthy (roleMatch prefs job)),
    (truthy (locationMatch prefs job)), (remoteMatch prefs job); lia.
Qed.

(** ** More skills, no lower score *)

Lemma existsb_incl {A} (p : A -> bool) (l1 l2 : list A) :
  incl l1 l2 -> existsb p l1 = true -> existsb p l2 = true.
Proof.
  intros Hi H. apply existsb_exists in H. destruct H as [x [Hx Hp]].
  apply existsb_exists. exists x. split; [now apply Hi | assumption].
Qed.

Lemma filter_length_mono {A} (p q : A -> bool) (l : list A) :
  (forall x, p x = true -> q x = true) ->
  (List.length (filter p l) <= List.length (filter q l))%nat.
Proof.
  intros H. induction l as [|x l IH]; simpl; [lia|].
  destruct (p x) eqn:P.
  - rewrite (H x P). simpl. lia.
  - destruct (q x); simpl; lia.
Qed.

Lemma matchingSkills_mono (us1 us2 : list string) (job : Job) :
  incl us1 us2 ->
  (List.length (matchingSkills us1 job)
   <= List.length (matchingSkills us2 job))%nat.
Proof.
  intros Hi. unfold matchingSkills. apply filter_length_mono.
  intros skill. now apply existsb_incl.
Qed.

Lemma ratio_mono (m1 m2 t : nat) (w : Q) :
  (m1 <= m2)%nat -> (0 < t)%nat -> 0 <= w ->
  0 <= fmul (fdiv (of_nat m1) (of_nat t)) w /\
  fmul (fdiv (of_nat m1) (of_nat t)) w <= fmul (fdiv (of_nat m2) (of_nat t)) w.
Proof.
  intros Hm Ht Hw.
  pose proof (of_nat_nonneg m1). pose proof (of_nat_pos t Ht).
  pose proof (of_nat_le m1 m2 Hm).
  assert (Q0 : 0 <= of_nat m1 / of_nat t).
  { apply Qle_shift_div_l; [assumption|]. lra. }
  assert (Q1 : of_nat m1 / of_nat t <= of_nat m2 / of_nat t).
  { apply Qmult_le_compat_r; [assumption|].
    apply Qlt_le_weak, Qinv_lt_0_compat. assumption. }
  assert (D0 : 0 <= fdiv (of_nat m1) (of_nat t))
    by (apply round64_nonneg; assumption).
  assert (D1 : fdiv (of_nat m1) (of_nat t) <= fdiv (of_nat m2) (of_nat t))
    by (apply round64_mono; assumption).
  unfold fmul. split.
  - apply round64_nonneg. nra.
  - apply round64_mono; nra.
Qed.

Lemma Math_round_mono (x y : Q) : x <= y -> (Math_round x <= Math_round y)%Z.
Proof. intros H. apply Qfloor_resp_le. lra. Qed.

Lemma add_mono (x : Q) (a1 a2 : Acc) :
  0 <= x -> 0 <= score a1 -> score a1 <= score a2 ->
  0 <= score (add x a1) /\ score (add x a1) <= score (add x a2).
Proof.
  intros Hx H0 H12. unfold add, fadd; simpl. split.
  - apply round64_nonneg. lra.
  - apply round64_mono; lra.
Qed.

Lemma skillStep_mono (us1 us2 : list string) (job : Job) :
  incl us1 us2 ->
  0 <= score (skillStep us1 job init) /\
  score (skillStep us1 job init) <= score (skillStep us2 job init).
Proof.
  intros Hi. pose proof (matchingSkills_mono us1 us2 job Hi) as Hm.
  unfold skillStep.
  destruct (0 <? List.length (jobSkills job))%nat eqn:HT.
  - apply Nat.ltb_lt in HT.
    destruct (ratio_mono _ _ _ 50 Hm HT ltac:(lra)) as [R0 R1].
    assert (G : 0 <= fadd 0 (fmul (fdiv (of_nat (List.length (matchingSkills us1 job)))
                                   (of_nat (List.length (jobSkills job)))) 50) /\
                fadd 0 (fmul (fdiv (of_nat (List.length (matchingSkills us1 job)))
                              (of_nat (List.length (jobSkills job)))) 50)
                <= fadd 0 (fmul (fdiv (of_nat (List.length (matchingSkills us2 job)))
                                 (of_nat (List.length (jobSkills job)))) 50)).
    { unfold fadd. split; [apply round64_nonneg | apply round64_mono]; lra. }
    destruct (0 <? List.length (matchingSkills us1 job))%nat,
      (0 <? List.length (matchingSkills us2 job))%nat; exact G.
  - simpl. lra.
Qed.

Lemma scoreState_mono (us1 us2 : list string) (prefs : JobPreference)
  (job : Job) :
  incl us1 us2 ->
  score (scoreState us1 prefs job) <= score (scoreState us2 prefs job).
Proof.
  intros Hi. destruct (skillStep_mono us1 us2 job Hi) as [S0 S1].
  unfold scoreState, remoteStep, locationStep, roleStep.
  set (a1 := skillStep us1 job init) in *.
  set (a2 := skillStep us2 job init) in *.
  assert (R : 0 <= score (if truthy (roleMatch prefs job)
                          then push "Matches desired role" (add 20 a1) else a1) /\
              score (if truthy (roleMatch prefs job)
                     then push "Matches desired role" (add 20 a1) else a1)
              <= score (if truthy (roleMatch prefs job)
                        then push "Matches desired role" (add 20 a2) else a2)).
  { destruct (truthy (roleMatch prefs job)); [|now split].
    apply (add_mono 20 a1 a2); [lra | assumption..]. }
  destruct R as [R0 R1].
  set (b1 := if truthy (roleMatch prefs job) then _ else a1) in *.
  set (b2 := if truthy (roleMatch prefs job) then _ else a2) in *.
  assert (L : 0 <= score (if truthy (locationMatch prefs job)
                          then push "Preferred location" (add 15 b1) else b1) /\
              score (if truthy (locationMatch prefs job)
                     then push "Preferred location" (add 15 b1) else b1)
              <= score (if truthy (locationMatch prefs job)
                        then push "Preferred location" (add 15 b2) else b2)).
  { destruct (truthy (locationMatch prefs job)); [|now split].
    apply (add_mono 15 b1 b2); [lra | assumption..]. }
  destruct L as [L0 L1].
  destruct (remoteMatch prefs job); [|assumption].
  apply (add_mono 15); [lra | assumption..].
Qed.

(** X8. A longer skill list never lowers a score: if every candidate
    skill of one list is in the other, the other's weighted score and
    skill-ratio score for any job are at least as high. *)
Theorem more_skills_no_lower_score (us1 us2 : list string)
  (prefs : JobPreference) (job : Job) :
  incl us1 us2 ->
  (matchScore (scoreJob us1 prefs job)
   <= matchScore (scoreJob us2 prefs job))%Z /\
  (Ratio.Listing.matchScore us1 job <= Ratio.Listing.matchScore us2 job)%Z /\
  (Ratio.Detail.matchScore us1 job <= Ratio.Detail.matchScore us2 job)%Z /\
  (Ratio.AiMatch.skillScore us1 job <= Ratio.AiMatch.skillScore us2 job)%Z.
Proof.
  intros Hi.
  assert (R : ((if (0 <? List.length (jobSkills job))%nat
                then Math_round (fmul (fdiv (of_nat (List.length (matchingSkills us1 job)))
                                        (of_nat (List.length (jobSkills job)))) 100)
                else 0)
               <= (if (0 <? List.length (jobSkills job))%nat
                   then Math_round (fmul (fdiv (of_nat (List.length (matchingSkills us2 job)))
                                           (of_nat (List.length (jobSkills job)))) 100)
                   else 0))%Z).
  { destruct (0 <? List.length (jobSkills job))%nat eqn:HT; [|lia].
    apply Nat.ltb_lt in HT. apply Math_round_mono.
    apply (ratio_mono _ _ _ 100 (matchingSkills_mono us1 us2 job Hi) HT).
    lra. }
  split; [|repeat split; exact R].
  unfold scoreJob; simpl matchScore.
  apply Math_round_mono, scoreState_mono, Hi.
Qed.

End ScoreEnds.

(** ** Integers, ceilings and pages *)

Section PaginationFacts.
Import JsMath.
Local Open Scope Q_scope.

Lemma rne_near (q : Q) :
  q - (1 # 2) <= inject_Z (rne q) /\ inject_Z (rne q) <= q + (1 # 2).
Proof.
  unfold rne.
  pose proof (Qfloor_le q) as F1. pose proof (Qlt_floor q) as F2.
  rewrite inject_Z_plus in F2. change (inject_Z 1) with 1 in F2.
  destruct (Qcompare_spec (q - inject_Z (Qfloor q)) (1 # 2)) as [E|L|G].
  - destruct (Z.even (Qfloor q)); rewrite ?inject_Z_plus;
      change (inject_Z 1) with 1; lra.
  - lra.
  - rewrite inject_Z_plus. change (inject_Z 1) with 1. lra.
Qed.

(** Rounding moves a positive number by at most half a unit in the last
    place, and that unit is at most [x / 2^52]. *)
Lemma round_pos_near (x : Q) :
  0 < x ->
  x - x * (1 # 2) * / inject_Z (2 ^ 52) <= round_pos x.
Proof.
  intros Hx. destruct (binade_spec x Hx) as [B1 _].
  pose proof (ulp_pos (binade x)) as U.
  rewrite binade_ulp in B1.
  destruct (rne_near (x / ulp (binade x))) as [N1 _].
  unfold round_pos; cbv zeta.
  set (u := ulp (binade x)) in *. set (k := inject_Z (rne (x / u))) in *.
  assert (Hu : u * inject_Z (2 ^ 52) <= x) by lra.
  assert (Hk : x - (1 # 2) * u <= k * u).
  { assert (E : x == (x / u) * u) by (field; lra).
    rewrite E at 1. nra. }
  assert (P : 0 < inject_Z (2 ^ 52)) by reflexivity.
  assert (Hu' : u <= x * / inject_Z (2 ^ 52)).
  { apply Qle_shift_div_l; assumption. }
  lra.
Qed.

Lemma binade_nonneg_bounds (n e : Z) :
  (0 < n)%Z -> binade (inject_Z n) = e ->
  2 ^ e <= inject_Z n /\ inject_Z n < 2 ^ (e + 1) /\ (0 <= e)%Z.
Proof.
  intros Hn <-.
  assert (Hx : 0 < inject_Z n) by (change 0 with (inject_Z 0); rewrite <- Zlt_Qlt; lia).
  destruct (binade_spec _ Hx) as [B1 B2]. repeat split; try assumption.
  assert (H : (0 < binade (inject_Z n) + 1)%Z); [|lia].
  apply pow2_lt_inv. eapply Qle_lt_trans; [|exact B2].
  change (2 ^ 0) with (inject_Z 1). rewrite <- Zle_Qle. lia.
Qed.

(** Integers up to [2^53] are binary64 values. *)
Lemma representable_int (n : Z) :
  (0 <= n <= 2 ^ 53)%Z -> round64 (inject_Z n) == inject_Z n.
Proof.
  intros [H0 H1]. destruct (Z.eq_dec n 0) as [->|NZ]; [reflexivity|].
  assert (Hn : (0 < n)%Z) by lia.
  assert (Hx : 0 < inject_Z n) by (change 0 with (inject_Z 0); rewrite <- Zlt_Qlt; lia).
  rewrite round64_pos by assumption. rewrite Qred_correct.
  destruct (binade_nonneg_bounds n _ Hn eq_refl) as (B1 & B2 & B0).
  set (e := binade (inject_Z n)) in *.
  assert (He : (e <= 53)%Z).
  { assert (H : (e < 53 + 1)%Z); [|lia]. apply pow2_lt_inv.
    eapply Qle_lt_trans; [exact B1|]. eapply Qle_lt_trans with (y := inject_Z (2 ^ 53)).
    - rewrite <- Zle_Qle. assumption.
    - reflexivity. }
  unfold round_pos; cbv zeta. fold e.
  pose proof (ulp_pos e) as U.
  destruct (Z.eq_dec e 53) as [E53|NE].
  - assert (n = 2 ^ 53)%Z.
    { apply Z.le_antisymm; [assumption|].
      rewrite Zle_Qle. eapply Qle_trans; [|exact B1]. rewrite E53.
      apply Qle_refl. }
    subst n. rewrite E53. reflexivity.
  - assert (E : 2 ^ (52 - e) == inject_Z (2 ^ (52 - e)))
      by (symmetry; apply (Zpower_Qpower 2); lia).
    assert (Eu : ulp e * 2 ^ (52 - e) == 1).
    { unfold ulp. rewrite <- Qpower_plus by apply two_neq0.
      now replace (e - 52 + (52 - e))%Z with 0%Z by ring. }
    assert (S : inject_Z n / ulp e == inject_Z (n * 2 ^ (52 - e))).
    { rewrite inject_Z_mult, <- E.
      apply Qmult_inj_r with (z := ulp e); [lra|].
      setoid_replace (inject_Z n / ulp e * ulp e) with (inject_Z n) by (field; lra).
      rewrite <- Qmult_assoc, (Qmult_comm (2 ^ (52 - e))), Eu. ring. }
    rewrite (rne_comp _ _ S), rne_Z, inject_Z_mult, <- E.
    rewrite <- Qmult_assoc, (Qmult_comm (2 ^ (52 - e))), Eu. ring.
Qed.

(** [Math.ceil(n / d)] on binary64 is the exact ceiling of the integer
    quotient, for [n] below [2^53]. *)
Lemma ceil_fdiv_exact (n d : Z) :
  (0 <= n < 2 ^ 53)%Z -> (1 <= d)%Z ->
  ((Math_ceil (fdiv (inject_Z n) (inject_Z d)) - 1) * d < n
   <= Math_ceil (fdiv (inject_Z n) (inject_Z d)) * d)%Z.
Proof.
  intros [Hn0 Hn1] Hd.
  set (c := ((n + d - 1) / d)%Z).
  assert (Hc : ((c - 1) * d < n <= c * d)%Z).
  { pose proof (Z.div_mod (n + d - 1) d ltac:(lia)) as DM.
    pose proof (Z.mod_pos_bound (n + d - 1) d ltac:(lia)) as MB.
    fold c in DM. nia. }
  assert (Hc0 : (0 <= c <= n)%Z) by nia.
  assert (PD : 0 < inject_Z d) by (change 0 with (inject_Z 0); rewrite <- Zlt_Qlt; lia).
  assert (E : Math_ceil (fdiv (inject_Z n) (inject_Z d)) = c); [|rewrite E; exact Hc].
  unfold Math_ceil, fdiv.
  set (q := inject_Z n / inject_Z d).
  assert (Q0 : 0 <= q).
  { apply Qle_shift_div_l; [assumption|]. rewrite Qmult_0_l.
    change 0 with (inject_Z 0). rewrite <- Zle_Qle. lia. }
  assert (Qc : q <= inject_Z c).
  { apply Qle_shift_div_r; [assumption|].
    rewrite <- inject_Z_mult, <- Zle_Qle. lia. }
  apply Z.le_antisymm.
  - rewrite <- (Qceiling_Z c). apply Qceiling_resp_le.
    rewrite <- (representable_int c) by lia.
    now apply round64_mono.
  - destruct (Z.eq_dec n 0) as [N0|NZ].
    { assert (c = 0)%Z as -> by lia.
      rewrite (round64_zero q); [discriminate|].
      unfold q. rewrite N0. unfold Qdiv. apply Qmult_0_l. }
    assert (Qpos : 0 < q).
    { apply Qlt_shift_div_l; [assumption|]. rewrite Qmult_0_l.
      change 0 with (inject_Z 0). rewrite <- Zlt_Qlt. lia. }
    assert (L : inject_Z (c - 1) < round64 q).
    { rewrite round64_pos by assumption. rewrite Qred_correct.
      eapply Qlt_le_trans; [|apply round_pos_near; assumption].
      assert (G : inject_Z (c - 1) + 1 / inject_Z d <= q).
      { unfold q. setoid_replace (inject_Z (c - 1) + 1 / inject_Z d)
          with ((inject_Z (c - 1) * inject_Z d + 1) / inject_Z d)
          by (field; lra).
        apply Qmult_le_compat_r; [|apply Qlt_le_weak, Qinv_lt_0_compat, PD].
        change 1 with (inject_Z 1).
        rewrite <- inject_Z_mult, <- inject_Z_plus, <- Zle_Qle. lia. }
      assert (S : q * (1 # 2) * / inject_Z (2 ^ 52) < 1 / inject_Z d).
      { unfold q.
        setoid_replace (inject_Z n / inject_Z d * (1 # 2) * / inject_Z (2 ^ 52))
          with ((inject_Z n / inject_Z (2 ^ 53)) * (1 / inject_Z d)).
        - assert (F : inject_Z n / inject_Z (2 ^ 53) < 1).
          { apply Qlt_shift_div_r; [reflexivity|]. rewrite Qmult_1_l.
            rewrite <- Zlt_Qlt. assumption. }
          assert (I : 0 < 1 / inject_Z d).
          { apply Qlt_shift_div_l; [assumption|]. lra. }
          nra.
        - change (inject_Z (2 ^ 53)) with (2 * inject_Z (2 ^ 52)).
          field. split; [lra | discriminate]. }
      lra. }
    assert (H : (c - 1 < Qceiling (round64 q))%Z); [|lia].
    rewrite Zlt_Qlt. eapply Qlt_le_trans; [exact L | apply Qle_ceiling].
Qed.

Lemma orDefault_nonzero (q : option Z) (d : Z) :
  d <> 0%Z -> orDefault q d <> 0%Z.
Proof.
  intros Hd. unfold orDefault. destruct q as [v|]; [|assumption].
  destruct (Z.eqb_spec v 0); assumption.
Qed.

Lemma skip_exact (page limit : Z) :
  (1 <= page)%Z -> (0 <= limit)%Z -> ((page - 1) * limit <= 2 ^ 53)%Z ->
  (page <= 2 ^ 53)%Z ->
  Pagination.skip page limit == inject_Z ((page - 1) * limit).
Proof.
  intros Hp Hl Hb Hp'. unfold Pagination.skip, fmul, fsub.
  assert (E1 : round64 (inject_Z page - 1) == inject_Z (page - 1)).
  { rewrite <- (representable_int (page - 1)) by lia.
    rewrite (round64_comp (inject_Z page - 1) (inject_Z (page - 1)));
      [reflexivity|].
    unfold Z.sub. rewrite inject_Z_plus. reflexivity. }
  rewrite (round64_comp _ (inject_Z ((page - 1) * limit))).
  - apply representable_int. nia.
  - rewrite E1, inject_Z_mult. reflexivity.
Qed.

(** X9. Page count.  For a count below [2^53] and a limit of at least 1
    the page count is the exact ceiling: the pages before the last do not
    reach the total and all pages together do; there are no pages exactly
    when there is nothing to show. *)
Theorem pages_exact (total : Z) (query : option Z) :
  (0 <= total < 2 ^ 53)%Z -> (1 <= Pagination.limit query)%Z ->
  let limit := Pagination.limit query in
  let pages := Pagination.pages total limit in
  ((pages - 1) * limit < total <= pages * limit)%Z /\
  (pages = 0%Z <-> total = 0%Z).
Proof.
  intros Ht Hl. cbv zeta.
  pose proof (ceil_fdiv_exact total (Pagination.limit query) Ht Hl) as H.
  fold (Pagination.pages total (Pagination.limit query)) in H.
  split; [exact H|]. nia.
Qed.

(** X10. Page windows.  With a page of at least 1 and a limit between 1
    and 100, as the validators of the job listing require, and for pages up
    to [2^45] and totals below [2^52], the number of skipped rows is
    exactly [(page - 1) * limit]: the windows of consecutive pages are
    adjacent, the last page starts below the total and the page after it
    starts at or beyond the total. *)
Theorem skip_windows (total page : Z) (query : option Z) :
  (1 <= page <= 2 ^ 45)%Z -> (0 < total < 2 ^ 52)%Z ->
  (1 <= Pagination.limit query <= 100)%Z ->
  let limit := Pagination.limit query in
  let pages := Pagination.pages total limit in
  Pagination.skip page limit == inject_Z ((page - 1) * limit) /\
  Pagination.skip (page + 1) limit
    == Pagination.skip page limit + inject_Z limit /\
  Pagination.skip pages limit < inject_Z total /\
  inject_Z total <= Pagination.skip (pages + 1) limit.
Proof.
  intros Hp Ht Hl. cbv zeta.
  set (limit := Pagination.limit query) in *.
  pose proof (ceil_fdiv_exact total limit ltac:(lia) ltac:(lia)) as H.
  fold (Pagination.pages total limit) in H.
  set (pages := Pagination.pages total limit) in *.
  assert (P45 : (2 ^ 45 * 100 < 2 ^ 53)%Z) by reflexivity.
  assert (Hpages : (1 <= pages <= total)%Z) by nia.
  assert (S1 : Pagination.skip page limit == inject_Z ((page - 1) * limit))
    by (apply skip_exact; nia).
  assert (S2 : Pagination.skip (page + 1) limit
               == inject_Z ((page + 1 - 1) * limit))
    by (apply skip_exact; nia).
  assert (S3 : Pagination.skip pages limit == inject_Z ((pages - 1) * limit))
    by (apply skip_exact; nia).
  assert (S4 : Pagination.skip (pages + 1) limit
               == inject_Z ((pages + 1 - 1) * limit)).
  { apply skip_exact; nia. }
  repeat split.
  - exact S1.
  - rewrite S2, S1, <- inject_Z_plus. apply inject_Z_injective. ring.
  - rewrite S3, <- Zlt_Qlt. lia.
  - rewrite S4, <- Zle_Qle. replace (pages + 1 - 1)%Z with pages by ring. lia.
Qed.

End PaginationFacts.

(** ** The listing, detail, AI match and statistics handlers *)

Section HandlerFacts.
Import JsMath Order Points.
Local Open Scope string_scope.

Lemma arrayIncludes_In (arr : list string) (s : string) :
  AiMatchResponse.arrayIncludes arr s = true <-> In s arr.
Proof.
  unfold AiMatchResponse.arrayIncludes. rewrite existsb_exists. split.
  - intros [x [Hx E]]. apply String.eqb_eq in E. now subst.
  - intros H. exists s. split; [assumption | apply String.eqb_refl].
Qed.

Lemma missingSkills_filter (us : list string) (job : Job) :
  AiMatchResponse.missingSkills us job =
  filter (fun skill => negb (existsb (skillMatch skill) us)) (jobSkills job).
Proof.
  unfold AiMatchResponse.missingSkills. apply filter_ext_in. intros s Hs.
  f_equal. apply eq_true_iff_eq. rewrite arrayIncludes_In.
  unfold matchingSkills. rewrite filter_In. tauto.
Qed.

Lemma filter_negb_perm {A} (p : A -> bool) (l : list A) :
  Permutation (filter p l ++ filter (fun x => negb (p x)) l) l.
Proof.
  induction l as [|x l IH]; simpl; [constructor|].
  destruct (p x); simpl.
  - now constructor.
  - rewrite <- Permutation_middle. now constructor.
Qed.

(** X11. The AI match answer splits the required skills: the matching and
    the missing skills together are a rearrangement of the required
    skills, and a required skill is missing exactly when it is not
    matching. *)
Theorem missing_and_matching_split (us : list string) (job : Job) :
  Permutation
    (matchingSkills us job ++ AiMatchResponse.missingSkills us job)
    (jobSkills job) /\
  (List.length (matchingSkills us job)
   + List.length (AiMatchResponse.missingSkills us job)
   = List.length (jobSkills job))%nat /\
  (forall s, In s (AiMatchResponse.missingSkills us job) <->
             In s (jobSkills job) /\ ~ In s (matchingSkills us job)).
Proof.
  assert (P : Permutation
    (matchingSkills us job ++ AiMatchResponse.missingSkills us job)
    (jobSkills job)).
  { rewrite missingSkills_filter. apply filter_negb_perm. }
  split; [exact P|]. split.
  - rewrite <- length_app. now apply Permutation_length.
  - intros s. unfold AiMatchResponse.missingSkills. rewrite filter_In.
    rewrite negb_true_iff, <- not_true_iff_false, arrayIncludes_In.
    reflexivity.
Qed.

Lemma ratio_value_full (t : nat) :
  (0 < t)%nat ->
  Math_round (fmul (fdiv (of_nat t) (of_nat t)) 100) = 100%Z.
Proof. intros Ht. rewrite (fdiv_self t Ht). reflexivity. Qed.

Lemma ratio_value_none (t : nat) :
  Math_round (fmul (fdiv (of_nat 0) (of_nat t)) 100) = 0%Z.
Proof.
  assert (D : fdiv (of_nat 0) (of_nat t) = 0%Q).
  { apply round64_zero. unfold Qdiv. change (of_nat 0) with 0%Q. ring. }
  rewrite D. reflexivity.
Qed.

(** X12. Ends of the skill-ratio score, at the listing, detail, application
    and AI match handlers alike: it is 100 when every required skill is
    matched, 0 when none is, and a positive score means that some
    required skill is matched. *)
Theorem ratio_score_ends (skills : list Skill) (job : Job) :
  let us := userSkills skills in
  let M := List.length (matchingSkills us job) in
  let T := List.length (jobSkills job) in
  Ratio.Detail.matchScore us job = Ratio.Listing.matchScore us job /\
  Ratio.Apply.matchScore (Some skills) job = Ratio.Listing.matchScore us job /\
  Ratio.AiMatch.skillScore us job = Ratio.Listing.matchScore us job /\
  ((0 < T)%nat -> M = T -> Ratio.Listing.matchScore us job = 100%Z) /\
  (M = 0%nat -> Ratio.Listing.matchScore us job = 0%Z) /\
  ((0 < Ratio.Listing.matchScore us job)%Z -> (0 < M)%nat).
Proof.
  cbv zeta. repeat split.
  - intros HT HM. unfold Ratio.Listing.matchScore. rewrite HM.
    rewrite (proj2 (Nat.ltb_lt _ _) HT). now apply ratio_value_full.
  - intros HM. unfold Ratio.Listing.matchScore. rewrite HM.
    destruct (0 <? _)%nat; [apply ratio_value_none | reflexivity].
  - intros Hpos.
    destruct (List.length (matchingSkills (userSkills skills) job)) eqn:HM;
      [|lia].
    unfold Ratio.Listing.matchScore in Hpos. rewrite HM in Hpos.
    destruct (0 <? _)%nat; [rewrite ratio_value_none in Hpos|]; lia.
Qed.

Lemma includes_empty (s : string) : includes s "" = true.
Proof. destruct s; reflexivity. Qed.

Lemma matchingSkills_all (us : list string) (job : Job) :
  (forall skill, In skill (jobSkills job) ->
                 existsb (skillMatch skill) us = true) ->
  matchingSkills us job = jobSkills job.
Proof.
  intros H. unfold matchingSkills.
  induction (jobSkills job) as [|x l IH]; simpl; [reflexivity|].
  rewrite (H x (or_introl eq_refl)). f_equal. apply IH.
  intros s Hs. apply H. now right.
Qed.

(** X13. Empty strings match everything.  A profile skill with an empty
    name matches every required skill, so every job that requires a skill
    scores 100 on the skill ratio and at least 50 on the weighted score;
    an empty desired role matches every title. *)
Theorem empty_strings_match_all (skills : list Skill)
  (prefs : JobPreference) (job : Job) :
  (In {| name := "" |} skills ->
   matchingSkills (userSkills skills) job = jobSkills job /\
   (skillsRequired job <> [] ->
    Ratio.Listing.matchScore (userSkills skills) job = 100%Z /\
    (50 <= matchScore (scoreJob (userSkills skills) prefs job))%Z)) /\
  (forall roles, desiredRoles prefs = Some roles -> In "" roles ->
                 truthy (roleMatch prefs job) = true).
Proof.
  split.
  - intros Hin.
    assert (E : matchingSkills (userSkills skills) job = jobSkills job).
    { apply matchingSkills_all. intros skill _. apply existsb_exists.
      exists "". split.
      - unfold userSkills. apply in_map_iff. exists {| name := "" |}.
        now split.
      - unfold skillMatch. now rewrite includes_empty, orb_true_r. }
    split; [exact E|]. intros Hne.
    assert (HT : (0 < List.length (jobSkills job))%nat).
    { unfold jobSkills. rewrite length_map.
      destruct (skillsRequired job); [congruence | simpl; lia]. }
    split.
    + unfold Ratio.Listing.matchScore. rewrite E.
      rewrite (proj2 (Nat.ltb_lt _ _) HT). now apply ratio_value_full.
    + pose proof (scoreJob_from_integer (userSkills skills) prefs job 50%Q
                    (skillStep_full_match _ job HT (f_equal _ E))
                    (or_intror eq_refl)) as H.
      change 50%Q with (inject_Z 50) in H. rewrite <- inject_Z_plus in H.
      apply (proj1 (inject_Z_injective _ _)) in H. rewrite H.
      assert (0 <= bonus prefs job)%Z; [|lia].
      unfold bonus.
      destruct (truthy (roleMatch prefs job)),
        (truthy (locationMatch prefs job)), (remoteMatch prefs job); lia.
  - intros roles Hr Hin. unfold roleMatch. rewrite Hr. simpl.
    apply existsb_exists. exists "". split; [assumption|].
    apply includes_empty.
Qed.

(** X14. Sorting the listing by match.  For a user with a profile the
    [sortByMatch] flag only rearranges the page: the answer has the same
    scored jobs, best first; each carries a score between 0 and 100 and
    its matching skills. *)
Theorem listing_sortByMatch (skills : list Skill) (jobs : list Job) :
  let sorted := JobListing.jobsWithMatchScore (Some skills) true jobs in
  let unsorted := JobListing.jobsWithMatchScore (Some skills) false jobs in
  Permutation sorted unsorted /\
  descending (fun j => orDefault (JobListing.matchScore j) 0) sorted /\
  (forall lj, In lj sorted ->
     exists j s, In j jobs /\ JobListing.job lj = j /\
       JobListing.matchScore lj = Some s /\ (0 <= s <= 100)%Z /\
       JobListing.matchingSkills lj
       = Some (matchingSkills (userSkills skills) j)).
Proof.
  cbv zeta. unfold JobListing.jobsWithMatchScore. repeat split.
  - apply sort_perm.
  - apply (sort_descending (fun j => orDefault (JobListing.matchScore j) 0)).
  - intros lj Hin. apply sort_In in Hin. apply in_map_iff in Hin.
    destruct Hin as [j [<- Hj]].
    exists j, (Ratio.Listing.matchScore (userSkills skills) j).
    repeat split; try assumption;
      apply (ratio_range _ _ (matching_le (userSkills skills) j)).
Qed.

Lemma length_push_if (b : bool) (l : list string) (r : string) :
  List.length (if b then (l ++ [r])%list else l)
  = (List.length l + if b then 1 else 0)%nat.
Proof. destruct b; [rewrite length_app; reflexivity | lia]. Qed.


(** X16. The response rate of the statistics page is a percentage: with
    no more responses than applications it lies between 0 and 100, is 0
    without applications or responses and 100 when all were answered. *)
Theorem responseRate_percentage (responseRate totalApplications : nat) :
  (responseRate <= totalApplications)%nat ->
  (0 <= ApplicationStats.responseRatePercent responseRate totalApplications
     <= 100)%Z /\
  (responseRate = 0%nat ->
   ApplicationStats.responseRatePercent responseRate totalApplications = 0%Z) /\
  ((0 < totalApplications)%nat -> responseRate = totalApplications ->
   ApplicationStats.responseRatePercent responseRate totalApplications
   = 100%Z).
Proof.
  intros H. unfold ApplicationStats.responseRatePercent. repeat split.
  - apply (ratio_range _ _ H).
  - apply (ratio_range _ _ H).
  - intros ->. destruct (0 <? _)%nat; [apply ratio_value_none | reflexivity].
  - intros HT ->. rewrite (proj2 (Nat.ltb_lt _ _) HT).
    now apply ratio_value_full.
Qed.

End HandlerFacts.

(** ** Applications and withdrawals *)

Section ApplicationTraces.
Import Applications.
Local Open Scope string_scope.
Local Open Scope Z_scope.

Section ApplicationFacts.
Variable jobs : string -> option Job.
Variable userProfile : option (list Skill).

Lemma autoApplied_app (sub sub' : option Subscription)
  (apps : list Application) (row : Application) :
  autoApplied {| subscription := sub'; applications := apps ++ [row] |}
  = autoApplied {| subscription := sub; applications := apps |}
    + (if isAutoApplied row then 1 else 0).
Proof.
  unfold autoApplied; simpl. rewrite filter_app, length_app. simpl.
  destruct (isAutoApplied row); simpl; lia.
Qed.

Lemma setStatus_jobIds (i s : string) (apps : list Application) :
  map jobId (setStatus i s apps) = map jobId apps.
Proof.
  unfold setStatus. rewrite map_map. apply map_ext. intros a.
  destruct (String.eqb (id a) i); reflexivity.
Qed.

Lemma setStatus_auto (i s : string) (apps : list Application) :
  map isAutoApplied (setStatus i s apps) = map isAutoApplied apps.
Proof.
  unfold setStatus. rewrite map_map. apply map_ext. intros a.
  destruct (String.eqb (id a) i); reflexivity.
Qed.

Lemma filter_length_map {A} (f : A -> bool) (l : list A) :
  List.length (filter f l) = List.length (filter (fun b => b) (map f l)).
Proof.
  induction l as [|x l IH]; simpl; [reflexivity|].
  destruct (f x); simpl; now rewrite IH.
Qed.

Lemma autoApplied_setStatus (sub : option Subscription) (i s : string)
  (apps : list Application) :
  autoApplied {| subscription := sub;
                 applications := setStatus i s apps |}
  = autoApplied {| subscription := sub; applications := apps |}.
Proof.
  unfold autoApplied; simpl.
  now rewrite !(filter_length_map isAutoApplied), setStatus_auto.
Qed.

Lemma findByJob_Some (apps : list Application) (j : string) :
  In j (map jobId apps) -> exists a, findByJob apps j = Some a.
Proof.
  intros H. apply in_map_iff in H. destruct H as [a [<- Ha]].
  unfold findByJob.
  destruct (find (fun a0 => String.eqb (jobId a0) (jobId a)) apps) eqn:F;
    [eauto|].
  pose proof (find_none _ _ F a Ha) as N. simpl in N.
  now rewrite String.eqb_refl in N.
Qed.

Lemma findByJob_None (apps : list Application) (j : string) :
  findByJob apps j = None -> ~ In j (map jobId apps).
Proof.
  intros F H. apply findByJob_Some in H. destruct H as [a H]. congruence.
Qed.

(** What one request does to the rows. *)
Lemma step_effect (st : Store) (r : Request) :
  let st' := fst (step jobs userProfile st r) in
  (forall j, In j (map jobId (applications st)) ->
             In j (map jobId (applications st'))) /\
  (NoDup (map jobId (applications st)) ->
   NoDup (map jobId (applications st'))) /\
  (subscription st = None -> subscription st' = None /\
                             autoApplied st' = autoApplied st) /\
  (forall s, subscription st = Some s ->
     exists s', subscription st' = Some s' /\
       tier s' = tier s /\ autoAppliesLimit s' = autoAppliesLimit s /\
       autoAppliesUsed s' - autoAppliesUsed s
       = autoApplied st' - autoApplied st /\
       (tier s = "FREE" -> autoAppliesUsed s <= autoAppliesLimit s ->
        autoAppliesUsed s' <= autoAppliesLimit s)).
Proof.
  cbv zeta. destruct st as [sub apps]. destruct r as [newId j auto | i]; simpl.
  - unfold create; simpl.
    destruct (jobs j) as [job|]; simpl.
    2:{ repeat split; trivial. intros s ->. exists s. repeat split; lia. }
    destruct (findByJob apps j) eqn:F; simpl.
    1:{ repeat split; trivial. intros s ->. exists s. repeat split; lia. }
    apply findByJob_None in F.
    assert (ND : NoDup (map jobId apps) ->
                 NoDup (map jobId (apps ++
                   [{| id := newId; jobId := j; status := "PENDING";
                       isAutoApplied := auto;
                       matchScore := Ratio.Apply.matchScore userProfile job;
                       matchReasons := applyReasons userProfile job |}]))).
    { intros H. rewrite map_app. simpl.
      apply NoDup_app; [assumption | repeat constructor; intros [] | ].
      intros x Hx [<-|[]]. contradiction. }
    assert (IN : forall x, In x (map jobId apps) ->
                 In x (map jobId (apps ++
                   [{| id := newId; jobId := j; status := "PENDING";
                       isAutoApplied := auto;
                       matchScore := Ratio.Apply.matchScore userProfile job;
                       matchReasons := applyReasons userProfile job |}]))).
    { intros x Hx. rewrite map_app. apply in_or_app. now left. }
    destruct auto; simpl.
    + destruct sub as [s|]; simpl.
      2:{ repeat split; trivial. intros s H; discriminate. }
      destruct (String.eqb_spec (tier s) "FREE") as [TF|TF]; simpl.
      * destruct (Z.leb_spec (autoAppliesLimit s) (autoAppliesUsed s)); simpl.
        -- repeat split; trivial; try discriminate.
           intros s0 [= <-]. exists s. repeat split; lia.
        -- repeat split; trivial; try discriminate.
           intros s0 [= <-]. exists (incrementUsed s).
           rewrite (autoApplied_app (Some s)). simpl.
           repeat split; try lia.
      * repeat split; trivial; try discriminate.
        intros s0 [= <-]. exists (incrementUsed s).
        rewrite (autoApplied_app (Some s)). simpl.
        repeat split; try lia. intros; contradiction.
    + repeat split; trivial.
      * rewrite (autoApplied_app sub). simpl. lia.
      * intros s ->. exists s. rewrite (autoApplied_app (Some s)). simpl.
        repeat split; lia.
  - unfold withdraw; simpl.
    destruct (findById apps i); simpl.
    + rewrite setStatus_jobIds, autoApplied_setStatus.
      repeat split; trivial. intros s ->. exists s. repeat split; lia.
    + repeat split; trivial. intros s ->. exists s. repeat split; lia.
Qed.
End ApplicationFacts.

Lemma run_snoc (jobs : string -> option Job) (p : option (list Skill))
  (st : Store) (rs : list Request) (r : Request) :
  run jobs p st (rs ++ [r]) = fst (step jobs p (run jobs p st rs) r).
Proof. unfold run. now rewrite fold_left_app. Qed.


(** X18. One application per job, for good.  Requests never create a
    second application for a job, and once there is an application for a
    job every later attempt to apply to it is refused with 409, whatever
    was applied to or withdrawn in between: a withdrawn application still
    blocks. *)
Theorem applied_job_stays_refused (jobs : string -> option Job)
  (p : option (list Skill)) (st : Store) (rs : list Request) :
  (NoDup (map jobId (applications st)) ->
   NoDup (map jobId (applications (run jobs p st rs)))) /\
  (forall j job newId auto,
     In j (map jobId (applications st)) -> jobs j = Some job ->
     create jobs p newId j auto (run jobs p st rs)
     = (run jobs p st rs,
        Refused 409 "You have already applied to this job")).
Proof.
  assert (I : (NoDup (map jobId (applications st)) ->
               NoDup (map jobId (applications (run jobs p st rs)))) /\
              (forall j, In j (map jobId (applications st)) ->
                 In j (map jobId (applications (run jobs p st rs))))).
  { induction rs as [|r rs IH] using rev_ind; [now split|].
    destruct IH as [N1 M1]. rewrite run_snoc.
    destruct (step_effect jobs p (run jobs p st rs) r) as (M2 & N2 & _).
    split; auto. }
  destruct I as [N M]. split; [exact N|].
  intros j job newId auto Hin Hjob. unfold create. rewrite Hjob.
  destruct (findByJob_Some _ _ (M j Hin)) as [a ->]. reflexivity.
Qed.

(** X19. A refused request changes nothing: the subscription counter and
    the applications are as before, so a refused auto-apply costs no
    quota. *)
Theorem refused_changes_nothing (jobs : string -> option Job)
  (p : option (list Skill)) (st : Store) (r : Request)
  (code : Z) (message : string) :
  snd (step jobs p st r) = Refused code message ->
  fst (step jobs p st r) = st.
Proof.
  destruct r as [newId j auto | i]; simpl.
  - unfold create. destruct (jobs j); [|reflexivity].
    destruct (findByJob (applications st) j); [reflexivity|].
    destruct auto.
    + destruct (subscription st) as [s|]; [|reflexivity].
      destruct (_ && _); [reflexivity | discriminate].
    + discriminate.
  - unfold withdraw. destruct (findById (applications st) i);
      [discriminate | reflexivity].
Qed.

End ApplicationTraces.

(** ** The rate limiter *)

Section RateLimitTraces.
Import JsMath RateLimit.
Local Open Scope Z_scope.

Section RateLimitFacts.
Variables maxRequests windowMs : Z.
Let limit := userRateLimit maxRequests windowMs.

Lemma set_same (m : Requests) (k : string) (e : Entry) : set m k e k = Some e.
Proof. unfold set. now rewrite String.eqb_refl. Qed.

Lemma set_other (m : Requests) (k k' : string) (e : Entry) :
  k' <> k -> set m k e k' = m k'.
Proof. intros H. unfold set. now apply String.eqb_neq in H as ->. Qed.

(** A request leaves the entries of the other users alone. *)
Lemma limit_other (m : Requests) (user : option string) (now : Z)
  (u : string) :
  user <> Some u -> fst (limit m user now) u = m u.
Proof.
  intros H. unfold limit, userRateLimit.
  destruct user as [v|]; [|reflexivity].
  assert (u <> v) by congruence.
  destruct (m v) as [e|]; simpl; [|now apply set_other].
  destruct (resetTime e <? now); simpl; [now apply set_other|].
  destruct (maxRequests <=? count e); simpl;
    [reflexivity | now apply set_other].
Qed.

(** The answer to a user and the user's new entry depend on the user's
    entry only. *)
Lemma limit_own (m m' : Requests) (u : string) (now : Z) :
  m u = m' u ->
  snd (limit m (Some u) now) = snd (limit m' (Some u) now) /\
  fst (limit m (Some u) now) u = fst (limit m' (Some u) now) u.
Proof.
  intros H. unfold limit, userRateLimit. rewrite <- H.
  destruct (m u) as [e|] eqn:E; simpl;
    [|split; [reflexivity | now rewrite !set_same]].
  destruct (resetTime e <? now); simpl;
    [split; [reflexivity | now rewrite !set_same]|].
  destruct (maxRequests <=? count e); simpl;
    [split; [reflexivity | congruence]
    | split; [reflexivity | now rewrite !set_same]].
Qed.

Lemma answersFor_cons (u : string) (m : Requests) (user : option string)
  (now : Z) (rest : list Event) :
  answersFor maxRequests windowMs u m ((user, now) :: rest) =
  let tail := answersFor maxRequests windowMs u
                (fst (limit m user now)) rest in
  match user with
  | Some v => if String.eqb v u then snd (limit m user now) :: tail else tail
  | None => tail
  end.
Proof.
  simpl. unfold limit.
  destruct (userRateLimit maxRequests windowMs m user now). reflexivity.
Qed.

Lemma answersFor_isolated (u : string) (events : list Event) :
  forall m m' : Requests, m u = m' u ->
  answersFor maxRequests windowMs u m events =
  answersFor maxRequests windowMs u m' (eventsOf u events).
Proof.
  induction events as [|[user now] rest IH]; intros m m' H; [reflexivity|].
  rewrite answersFor_cons. cbv zeta. unfold eventsOf; simpl.
  destruct user as [v|].
  - destruct (String.eqb_spec v u) as [->|NE].
    + rewrite answersFor_cons. cbv zeta. rewrite String.eqb_refl.
      destruct (limit_own m m' u now H) as [A B]. rewrite A. f_equal.
      now apply IH.
    + apply IH. rewrite limit_other by congruence. exact H.
  - apply IH. rewrite limit_other by congruence. exact H.
Qed.

Lemma passed_cons (a : Answer) (l : list Answer) :
  passed (a :: l) = (if isNext a then 1 else 0) + passed l.
Proof.
  unfold passed. simpl filter.
  destruct (isNext a); simpl List.length; lia.
Qed.

Lemma passed_nonneg (l : list Answer) : 0 <= passed l.
Proof. unfold passed. lia. Qed.

(** Inside an open window at most [maxRequests - count] requests of the
    user pass. *)
Lemma open_window_quota (u : string) (events : list Event) :
  forall (m : Requests) (e : Entry),
  m u = Some e ->
  (forall now, In (Some u, now) events -> now <= resetTime e) ->
  passed (answersFor maxRequests windowMs u m events)
  <= Z.max 0 (maxRequests - count e).
Proof.
  induction events as [|[user now] rest IH]; intros m e Hm Ht.
  - unfold passed; simpl. lia.
  - rewrite answersFor_cons. cbv zeta.
    assert (Hrest : forall t, In (Some u, t) rest -> t <= resetTime e)
      by (intros t Hin; apply Ht; now right).
    destruct user as [v|].
    + destruct (String.eqb_spec v u) as [->|NE].
      * assert (Hnow : now <= resetTime e) by (apply Ht; now left).
        rewrite passed_cons. unfold limit, userRateLimit. rewrite Hm.
        destruct (Z.ltb_spec (resetTime e) now) as [?|_]; [lia|].
        destruct (Z.leb_spec maxRequests (count e)) as [Hc|Hc];
          cbn [fst snd isNext].
        -- specialize (IH m e Hm Hrest). lia.
        -- specialize (IH (set m u {| count := count e + 1;
                                      resetTime := resetTime e |})
                          {| count := count e + 1;
                             resetTime := resetTime e |}
                          (set_same _ _ _) Hrest).
           cbn [count resetTime] in IH. lia.
      * apply (IH _ e); [|assumption].
        rewrite limit_other by congruence. exact Hm.
    + apply (IH _ e); [|assumption].
      rewrite limit_other by congruence. exact Hm.
Qed.
End RateLimitFacts.

(** X20. Quota of a window.  When a request of a user opens a window,
    because the user has no entry or the entry has run out, that request
    passes, and of all the user's requests up to the end of the window,
    with any requests of other users in between, at most
    [max 1 maxRequests] pass. *)
Theorem rate_limit_window_quota (maxRequests windowMs : Z) (u : string)
  (m : Requests) (t0 : Z) (events : list Event) :
  (forall e, m u = Some e -> resetTime e < t0) ->
  (forall now, In (Some u, now) events -> now <= t0 + windowMs) ->
  snd (userRateLimit maxRequests windowMs m (Some u) t0) = Next /\
  passed (answersFor maxRequests windowMs u m ((Some u, t0) :: events))
  <= Z.max 1 maxRequests.
Proof.
  intros Hm Ht.
  assert (O : userRateLimit maxRequests windowMs m (Some u) t0 =
              (set m u {| count := 1; resetTime := t0 + windowMs |}, Next)).
  { unfold userRateLimit. destruct (m u) as [e|] eqn:E; [|reflexivity].
    specialize (Hm e eq_refl).
    now apply Z.ltb_lt in Hm as ->. }
  split; [now rewrite O|].
  rewrite answersFor_cons. cbv zeta. rewrite String.eqb_refl, O.
  cbn [fst snd]. rewrite passed_cons. cbn [isNext].
  pose proof (open_window_quota maxRequests windowMs u events
                (set m u {| count := 1; resetTime := t0 + windowMs |})
                {| count := 1; resetTime := t0 + windowMs |}
                (set_same _ _ _) Ht) as Q.
  cbn [count] in Q. lia.
Qed.

(** X21. Users do not share a quota.  The answers a user gets are those
    the user's own requests would get alone: requests of other users and
    unauthenticated requests, which always pass, make no difference. *)
Theorem rate_limit_users_independent (maxRequests windowMs : Z)
  (u : string) (m : Requests) (events : list Event) :
  answersFor maxRequests windowMs u m events
  = answersFor maxRequests windowMs u m (eventsOf u events) /\
  (forall now, userRateLimit maxRequests windowMs m None now = (m, Next)) /\
  (forall v now, v <> u ->
     fst (userRateLimit maxRequests windowMs m (Some v) now) u = m u).
Proof.
  split; [now apply answersFor_isolated|]. split; [reflexivity|].
  intros v now NE. apply limit_other. congruence.
Qed.

Lemma retryAfter_exact (resetTime now : Z) :
  0 <= resetTime - now < 2 ^ 53 ->
  1000 * (retryAfter resetTime now - 1) < resetTime - now
  <= 1000 * retryAfter resetTime now.
Proof.
  intros H. unfold retryAfter, fsub.
  assert (E : (round64 (inject_Z resetTime - inject_Z now) / 1000
               == inject_Z (resetTime - now) / inject_Z 1000)%Q).
  { rewrite (round64_comp _ (inject_Z (resetTime - now))).
    - rewrite representable_int by lia. reflexivity.
    - unfold Z.sub. rewrite inject_Z_plus, inject_Z_opp. reflexivity. }
  unfold fdiv. rewrite (round64_comp _ _ E).
  pose proof (ceil_fdiv_exact (resetTime - now) 1000 H ltac:(lia)) as C.
  unfold fdiv in C. lia.
Qed.

(** X22. [retryAfter] is enough.  A request refused inside an open
    window leaves the entries as they are and is told a number of seconds
    that is the window's remaining time rounded up; any request of the
    user later than that many seconds passes. *)
Theorem rate_limit_retry_after (maxRequests windowMs : Z) (u : string)
  (m : Requests) (e : Entry) (now : Z) :
  m u = Some e -> 0 <= resetTime e - now < 2 ^ 53 ->
  maxRequests <= count e ->
  let r := retryAfter (resetTime e) now in
  userRateLimit maxRequests windowMs m (Some u) now
  = (m, TooManyRequests r) /\
  1000 * (r - 1) < resetTime e - now <= 1000 * r /\
  (forall later, now + 1000 * r < later ->
     snd (userRateLimit maxRequests windowMs m (Some u) later) = Next).
Proof.
  intros Hm Ht Hc. cbv zeta.
  pose proof (retryAfter_exact (resetTime e) now Ht) as R.
  split; [|split; [exact R|]].
  - unfold userRateLimit. rewrite Hm.
    destruct (Z.ltb_spec (resetTime e) now) as [?|_]; [lia|].
    now apply Z.leb_le in Hc as ->.
  - intros later Hl. unfold userRateLimit. rewrite Hm.
    destruct (Z.ltb_spec (resetTime e) later) as [_|?]; [reflexivity | lia].
Qed.

End RateLimitTraces.

(** ** The two formulas compared, ties, and the AI fallback *)

Section FormulasCompared.
Import JsMath Order Points.
Local Open Scope Q_scope.

(** Doubling is exact in binary arithmetic. *)
Lemma round_pos_double (x : Q) : 0 < x -> round_pos (2 * x) == 2 * round_pos x.
Proof.
  intros Hx. destruct (binade_spec x Hx) as [B1 B2].
  assert (B : binade (2 * x) = (binade x + 1)%Z).
  { apply binade_unique.
    - rewrite pow2_succ. lra.
    - rewrite pow2_succ. lra. }
  unfold round_pos; cbv zeta. rewrite B.
  assert (U : ulp (binade x + 1) == 2 * ulp (binade x)).
  { unfold ulp. replace (binade x + 1 - 52)%Z with (binade x - 52 + 1)%Z by ring.
    apply pow2_succ. }
  pose proof (ulp_pos (binade x)) as P.
  assert (S : 2 * x / ulp (binade x + 1) == x / ulp (binade x)).
  { rewrite U. field. lra. }
  rewrite (rne_comp _ _ S), U. ring.
Qed.

Lemma round64_double (x : Q) : 0 <= x -> round64 (2 * x) == 2 * round64 x.
Proof.
  intros Hx. destruct (Qle_lt_or_eq _ _ Hx) as [L|E].
  - rewrite !round64_pos by lra. rewrite !Qred_correct.
    now apply round_pos_double.
  - rewrite (round64_zero x) by (symmetry; assumption).
    rewrite round64_zero; [reflexivity|]. rewrite <- E. reflexivity.
Qed.

Lemma Math_round_double (a : Q) :
  (2 * Math_round a - 1 <= Math_round (2 * a) <= 2 * Math_round a + 1)%Z.
Proof.
  unfold Math_round.
  pose proof (Qfloor_le (a + (1 # 2))) as A1.
  pose proof (Qlt_floor (a + (1 # 2))) as A2.
  pose proof (Qfloor_le (2 * a + (1 # 2))) as D1.
  pose proof (Qlt_floor (2 * a + (1 # 2))) as D2.
  rewrite inject_Z_plus in A2, D2. change (inject_Z 1) with 1 in A2, D2.
  set (n := Qfloor (a + (1 # 2))) in *.
  set (d := Qfloor (2 * a + (1 # 2))) in *.
  assert (L : inject_Z (2 * n) < inject_Z (d + 2)).
  { rewrite inject_Z_plus, inject_Z_mult.
    change (inject_Z 2) with 2. lra. }
  assert (U : inject_Z d < inject_Z (2 * n + 2)).
  { rewrite !inject_Z_plus, inject_Z_mult.
    change (inject_Z 2) with 2. lra. }
  rewrite <- Zlt_Qlt in L, U. lia.
Qed.

(** X23. The two formulas side by side.  For a job that earns no
    preference points the skill-ratio score is twice the weighted score
    up to the rounding of [Math.round]: the two differ by at most 1 after
    doubling. *)
Theorem ratio_twice_weighted (us : list string) (prefs : JobPreference)
  (job : Job) :
  bonus prefs job = 0%Z ->
  (2 * matchScore (scoreJob us prefs job) - 1
   <= Ratio.Listing.matchScore us job
   <= 2 * matchScore (scoreJob us prefs job) + 1)%Z.
Proof.
  intros Hb.
  assert (R : truthy (roleMatch prefs job) = false /\
              truthy (locationMatch prefs job) = false /\
              remoteMatch prefs job = false).
  { unfold bonus in Hb.
    destruct (truthy (roleMatch prefs job)),
      (truthy (locationMatch prefs job)), (remoteMatch prefs job);
      try discriminate; auto. }
  destruct R as (R1 & R2 & R3).
  unfold scoreJob, scoreState, remoteStep, locationStep, roleStep.
  rewrite R1, R2, R3. simpl matchScore.
  unfold Ratio.Listing.matchScore, skillStep.
  destruct (0 <? List.length (jobSkills job))%nat eqn:HT;
    [|simpl; unfold Math_round; simpl; lia].
  apply Nat.ltb_lt in HT.
  set (M := List.length (matchingSkills us job)).
  set (T := List.length (jobSkills job)) in *.
  assert (D0 : 0 <= fdiv (of_nat M) (of_nat T)).
  { apply round64_nonneg. apply Qle_shift_div_l; [now apply of_nat_pos|].
    pose proof (of_nat_nonneg M). lra. }
  set (x := fdiv (of_nat M) (of_nat T)) in *.
  assert (S : score (if (0 <? M)%nat
                     then push (string_of_nat M ++ " skill matches")
                            (add (fmul x 50) init)
                     else add (fmul x 50) init) = fmul x 50).
  { destruct (0 <? M)%nat; simpl; unfold fmul;
      (rewrite fadd_0_l; [reflexivity | nra]). }
  rewrite S.
  assert (E : fmul x 100 == 2 * fmul x 50).
  { unfold fmul. rewrite <- round64_double by nra.
    rewrite (round64_comp (x * 100) (2 * (x * 50))); [reflexivity | ring]. }
  pose proof (Math_round_double (fmul x 50)) as MD.
  assert (EM : Math_round (fmul x 100) = Math_round (2 * fmul x 50)).
  { unfold Math_round. apply Z.le_antisymm; apply Qfloor_resp_le;
      rewrite E; apply Qle_refl. }
  rewrite EM. exact MD.
Qed.

(** ** Ties *)

Section Stable.
Context {A : Type} (key : A -> Z).

Lemma insert_ties (v : Z) (x : A) (l : list A) :
  filter (fun a => (key a =? v)%Z) (insert (byKeyDesc key) x l)
  = filter (fun a => (key a =? v)%Z) (x :: l).
Proof.
  unfold byKeyDesc. induction l as [|y l IH]; [reflexivity|].
  cbn [insert]. destruct (Z.leb_spec (key y - key x) 0) as [H|H];
    [reflexivity|].
  cbn [filter] in *. rewrite IH.
  destruct (Z.eqb_spec (key y) v) as [Ey|Ey],
    (Z.eqb_spec (key x) v) as [Ex|Ex]; try reflexivity.
  exfalso. lia.
Qed.

Lemma sort_ties (v : Z) (l : list A) :
  filter (fun a => (key a =? v)%Z) (sort (byKeyDesc key) l)
  = filter (fun a => (key a =? v)%Z) l.
Proof.
  induction l as [|x l IH]; [reflexivity|].
  cbn [sort]. rewrite insert_ties. cbn [filter]. now rewrite IH.
Qed.
End Stable.

(** X24. Ties keep the order of the job list.  Recommendations with the
    same score come in the order their jobs were given, newest first as
    the query returns them; the listing sorted by match does the same. *)
Theorem equal_scores_keep_order (us : list string) (prefs : JobPreference)
  (skills : list Skill) (jobs : list Job) (limit v : Z) :
  (exists cut,
     filter (fun sj => (matchScore sj =? v)%Z)
            (filter (recommended prefs) (jobsWithScores us prefs jobs))
     = (filter (fun sj => (matchScore sj =? v)%Z)
               (filteredJobs us prefs jobs limit) ++ cut)%list) /\
  filter (fun lj => (orDefault (JobListing.matchScore lj) 0 =? v)%Z)
         (JobListing.jobsWithMatchScore (Some skills) true jobs)
  = filter (fun lj => (orDefault (JobListing.matchScore lj) 0 =? v)%Z)
           (JobListing.jobsWithMatchScore (Some skills) false jobs).
Proof.
  split.
  - rewrite filteredJobs_unfold. unfold slice0.
    set (s := sort (byKeyDesc matchScore)
                (filter (recommended prefs) (jobsWithScores us prefs jobs))).
    set (k := Z.to_nat _).
    exists (filter (fun sj => (matchScore sj =? v)%Z) (skipn k s)).
    rewrite <- filter_app, firstn_skipn. unfold s.
    symmetry. apply sort_ties.
  - unfold JobListing.jobsWithMatchScore.
    apply (sort_ties (fun lj => orDefault (JobListing.matchScore lj) 0)).
Qed.

(** X25. The AI match falls back on the skill score.  Without an
    analysis, and also when the analysis reports an overall score of 0,
    the final score is the skill score, between 0 and 100, and the job is
    recommended exactly when the skill score is at least 50; a candidate
    matching every required skill is then recommended. *)
Theorem ai_match_fallback (us : list string) (job : Job)
  (overall : option Z) :
  overall = None \/ overall = Some 0%Z ->
  let final := Ratio.AiMatch.finalMatchScore overall
                 (Ratio.AiMatch.skillScore us job) in
  final = Ratio.AiMatch.skillScore us job /\
  (0 <= final <= 100)%Z /\
  (Ratio.AiMatch.isRecommended final = true <->
   (50 <= Ratio.AiMatch.skillScore us job)%Z) /\
  ((0 < List.length (jobSkills job))%nat ->
   List.length (matchingSkills us job) = List.length (jobSkills job) ->
   Ratio.AiMatch.isRecommended final = true).
Proof.
  intros Ho. cbv zeta.
  assert (E : Ratio.AiMatch.finalMatchScore overall
                (Ratio.AiMatch.skillScore us job)
              = Ratio.AiMatch.skillScore us job).
  { destruct Ho as [-> | ->]; reflexivity. }
  rewrite E. split; [reflexivity|]. split.
  { apply (ratio_range _ _ (matching_le us job)). }
  split.
  { unfold Ratio.AiMatch.isRecommended. apply Z.leb_le. }
  intros HT HM. unfold Ratio.AiMatch.isRecommended, Ratio.AiMatch.skillScore.
  rewrite HM, (proj2 (Nat.ltb_lt _ _) HT), (ratio_value_full _ HT).
  reflexivity.
Qed.

End FormulasCompared.

(** ** Instances *)

Section FurtherWitnesses.
Import JsMath Order Points.
Local Open Scope string_scope.
Local Open Scope Z_scope.

Lemma filteredJobs_sound_witness :
  filteredJobs (userSkills Examples.reactOnly) (Examples.noPrefs (Some 101))
    [Examples.reactGraphql; Samples.reactJob] 10 = [].
Proof.
  apply (filteredJobs_sound (userSkills Examples.reactOnly)
           (Examples.noPrefs (Some 101))
           [Examples.reactGraphql; Samples.reactJob] 10).
  vm_compute. reflexivity.
Defined.

Lemma filteredJobs_keeps_best_witness :
  matchScore (scoreJob (userSkills Examples.reactOnly)
                (Examples.noPrefs (Some 10)) Examples.reactGraphql)
  <= matchScore (scoreJob (userSkills Examples.reactOnly)
                   (Examples.noPrefs (Some 10)) Samples.reactJob).
Proof.
  apply (filteredJobs_keeps_best (userSkills Examples.reactOnly)
           (Examples.noPrefs (Some 10))
           [Examples.reactGraphql; Samples.reactJob] 1).
  - vm_compute. left. reflexivity.
  - vm_compute. left. reflexivity.
  - vm_compute. reflexivity.
  - vm_compute. intros [H|[]]. discriminate H.
Defined.

Lemma filteredJobs_complete_witness :
  Permutation
    (filteredJobs (userSkills Examples.reactOnly) (Examples.noPrefs (Some 10))
       [Examples.reactGraphql; Samples.reactJob] 10)
    (filter (recommended (Examples.noPrefs (Some 10)))
       (jobsWithScores (userSkills Examples.reactOnly)
          (Examples.noPrefs (Some 10))
          [Examples.reactGraphql; Samples.reactJob])).
Proof.
  apply (filteredJobs_complete (userSkills Examples.reactOnly)
           (Examples.noPrefs (Some 10))
           [Examples.reactGraphql; Samples.reactJob] 10).
  simpl. lia.
Defined.

Lemma no_skill_match_score_witness :
  matchScore (scoreJob [] Examples.remotePrefs Samples.reactJob) = 30 /\
  recommended Examples.remotePrefs
    (scoreJob [] Examples.remotePrefs Samples.reactJob) = false.
Proof.
  destruct (no_skill_match_score [] Examples.remotePrefs Samples.reactJob
              eq_refl) as [H1 H2].
  split; [rewrite H1; reflexivity|].
  apply not_true_iff_false. intros R.
  apply (H2 eq_refl) in R. destruct R as [R _]. discriminate R.
Defined.

Lemma full_skill_match_score_witness :
  matchScore (scoreJob (userSkills Examples.reactOnly) Examples.remotePrefs
                Samples.reactJob) = 80 /\
  recommended Examples.remotePrefs
    (scoreJob (userSkills Examples.reactOnly) Examples.remotePrefs
       Samples.reactJob) = true.
Proof.
  destruct (full_skill_match_score (userSkills Examples.reactOnly)
              Examples.remotePrefs Samples.reactJob
              ltac:(simpl; lia) eq_refl) as [H1 H2].
  split; [rewrite H1; reflexivity | apply H2; vm_compute; discriminate].
Defined.

Lemma more_skills_no_lower_score_witness :
  matchScore (scoreJob [] Examples.remotePrefs Samples.reactJob)
  <= matchScore (scoreJob (userSkills Examples.reactOnly)
                   Examples.remotePrefs Samples.reactJob).
Proof.
  apply (more_skills_no_lower_score [] (userSkills Examples.reactOnly)
           Examples.remotePrefs Samples.reactJob).
  intros x [].
Defined.

Lemma pages_exact_witness :
  (Pagination.pages 45 (Pagination.limit None) - 1) * 20 < 45
  <= Pagination.pages 45 (Pagination.limit None) * 20.
Proof.
  apply (pages_exact 45 None); [split; [lia | reflexivity] | simpl; lia].
Defined.

Lemma skip_windows_witness :
  (Pagination.skip 2 (Pagination.limit (Some 10%Z)) == inject_Z 10)%Q.
Proof.
  apply (skip_windows 45 2 (Some 10));
    [split; [lia | vm_compute; discriminate]
    | split; [lia | reflexivity]
    | simpl; lia].
Defined.

Lemma ratio_score_ends_witness :
  Ratio.Listing.matchScore (userSkills Examples.reactOnly) Samples.reactJob
  = 100 /\
  Ratio.Listing.matchScore (userSkills []) Samples.reactJob = 0.
Proof.
  destruct (ratio_score_ends Examples.reactOnly Samples.reactJob)
    as (_ & _ & _ & H & _ & _).
  destruct (ratio_score_ends [] Samples.reactJob)
    as (_ & _ & _ & _ & H0 & _).
  split; [apply H; [simpl; lia | reflexivity] | apply H0; reflexivity].
Defined.

Lemma empty_strings_match_all_witness :
  Ratio.Listing.matchScore (userSkills [{| name := "" |}])
    Examples.reactGraphql = 100.
Proof.
  destruct (empty_strings_match_all [{| name := "" |}] Examples.remotePrefs
              Examples.reactGraphql) as [H _].
  destruct (H (or_introl eq_refl)) as [_ H1].
  destruct (H1 ltac:(discriminate)) as [H2 _]. exact H2.
Defined.

Lemma listing_sortByMatch_witness :
  exists j s,
    In j [Examples.reactGraphql; Samples.reactJob] /\
    JobListing.job
      (JobListing.withMatchScore (userSkills Examples.reactOnly)
         Samples.reactJob) = j /\
    JobListing.matchScore
      (JobListing.withMatchScore (userSkills Examples.reactOnly)
         Samples.reactJob) = Some s /\
    0 <= s <= 100 /\
    JobListing.matchingSkills
      (JobListing.withMatchScore (userSkills Examples.reactOnly)
         Samples.reactJob)
    = Some (matchingSkills (userSkills Examples.reactOnly) j).
Proof.
  apply (listing_sortByMatch Examples.reactOnly
           [Examples.reactGraphql; Samples.reactJob]).
  vm_compute. left. reflexivity.
Defined.

Lemma responseRate_percentage_witness :
  0 <= ApplicationStats.responseRatePercent 3 7 <= 100.
Proof.
  apply (responseRate_percentage 3 7). lia.
Defined.


Lemma applied_job_stays_refused_witness :
  Applications.create Samples.jobTable (Some Examples.reactOnly)
    "a9" "job-1" false
    (Applications.run Samples.jobTable (Some Examples.reactOnly)
       (Applications.run Samples.jobTable (Some Examples.reactOnly)
          Samples.store [Applications.Create "a1" "job-1" false])
       [Applications.Withdraw "a1"])
  = (Applications.run Samples.jobTable (Some Examples.reactOnly)
       (Applications.run Samples.jobTable (Some Examples.reactOnly)
          Samples.store [Applications.Create "a1" "job-1" false])
       [Applications.Withdraw "a1"],
     Applications.Refused 409 "You have already applied to this job").
Proof.
  apply (applied_job_stays_refused Samples.jobTable
           (Some Examples.reactOnly)
           (Applications.run Samples.jobTable (Some Examples.reactOnly)
              Samples.store [Applications.Create "a1" "job-1" false])
           [Applications.Withdraw "a1"])
    with (job := Samples.reactJob).
  - vm_compute. left. reflexivity.
  - reflexivity.
Defined.

Lemma refused_changes_nothing_witness :
  fst (Applications.step Samples.jobTable None Samples.store
         (Applications.Create "a1" "job-7" true)) = Samples.store.
Proof.
  apply (refused_changes_nothing Samples.jobTable None Samples.store
           (Applications.Create "a1" "job-7" true) 404 "Job not found").
  reflexivity.
Defined.

Lemma rate_limit_window_quota_witness :
  RateLimit.passed
    (RateLimit.answersFor 2 60000 "ann" RateLimit.empty
       ((Some "ann", 1000) :: Samples.events)) <= 2.
Proof.
  apply (rate_limit_window_quota 2 60000 "ann" RateLimit.empty 1000
           Samples.events).
  - intros e H. discriminate H.
  - intros now H. vm_compute in H.
    repeat (destruct H as [H|H]; [inversion H; lia|]). destruct H.
Defined.

Lemma rate_limit_users_independent_witness :
  fst (RateLimit.userRateLimit 2 60000 Samples.fullWindow (Some "bob") 1600)
    "ann"
  = Samples.fullWindow "ann".
Proof.
  apply (rate_limit_users_independent 2 60000 "ann" Samples.fullWindow
           Samples.events).
  discriminate.
Defined.

Lemma rate_limit_retry_after_witness :
  RateLimit.userRateLimit 2 60000 Samples.fullWindow (Some "ann") 1500
  = (Samples.fullWindow,
     RateLimit.TooManyRequests (RateLimit.retryAfter 61000 1500)).
Proof.
  apply (rate_limit_retry_after 2 60000 "ann" Samples.fullWindow
           {| RateLimit.count := 2; RateLimit.resetTime := 61000 |} 1500).
  - reflexivity.
  - simpl. split; [lia | reflexivity].
  - simpl. lia.
Defined.

Lemma ratio_twice_weighted_witness :
  2 * matchScore (scoreJob (userSkills Examples.reactOnly)
                    (Examples.noPrefs None) Examples.reactGraphql) - 1
  <= Ratio.Listing.matchScore (userSkills Examples.reactOnly)
       Examples.reactGraphql
  <= 2 * matchScore (scoreJob (userSkills Examples.reactOnly)
                       (Examples.noPrefs None) Examples.reactGraphql) + 1.
Proof.
  apply (ratio_twice_weighted (userSkills Examples.reactOnly)
           (Examples.noPrefs None) Examples.reactGraphql).
  reflexivity.
Defined.

Lemma ai_match_fallback_witness :
  Ratio.AiMatch.finalMatchScore (Some 0)
    (Ratio.AiMatch.skillScore (userSkills Examples.reactOnly)
       Samples.reactJob)
  = Ratio.AiMatch.skillScore (userSkills Examples.reactOnly)
      Samples.reactJob.
Proof.
  apply (ai_match_fallback (userSkills Examples.reactOnly) Samples.reactJob
           (Some 0)).
  right. reflexivity.
Defined.

End FurtherWitnesses.
